(** * PanelLayout: the ordered child list of a widget container

    A shallow embedding of [src/layout.ts] (class [PanelLayout]) together
    with the collaborators it calls: JavaScript numbers and arrays, the
    [phosphor-arrays] helpers, the DOM child list of the container node and
    the parent link and disposal of [phosphor-widget] widgets. *)

From Stdlib Require Import ZArith QArith Qround.
From stdpp Require Import base list gmap.

Local Open Scope Z_scope.

(** ** JavaScript numbers and arrays *)

Module Js.

(** A JavaScript [number]: the finite doubles are rationals. *)
Inductive number :=
| NaN
| Infinity (negative : bool)
| Num (q : Q).

Definition int (z : Z) : number := Num (inject_Z z).

(** Reduction of an integer to the signed 32-bit range. *)
Definition wrap32 (z : Z) : Z := (z + 2 ^ 31) mod 2 ^ 32 - 2 ^ 31.

(** Rounding toward zero. *)
Definition trunc (q : Q) : Z := Z.quot (Qnum q) (Z.pos (Qden q)).

(** The abstract operation ToInt32 of the language. *)
Definition ToInt32 (x : number) : Z :=
  match x with
  | Num q => wrap32 (trunc q)
  | NaN | Infinity _ => 0
  end.

(** [a | b] *)
Definition bitor (a b : number) : Z :=
  wrap32 (Z.lor (ToInt32 a) (ToInt32 b)).

Definition is_integer (q : Q) : bool := Qnum q mod Z.pos (Qden q) =? 0.

(** [array[x]]: only a non-negative integer below the length names an
    element, everything else reads [undefined]. *)
Definition get {A} (array : list A) (x : number) : option A :=
  match x with
  | Num q =>
      if is_integer q && (0 <=? Qnum q)
      then array !! Z.to_nat (trunc q)
      else None
  | NaN | Infinity _ => None
  end.

(** [array.indexOf(v)] *)
Definition indexOf `{EqDecision A} (array : list A) (v : A) : Z :=
  match list_find (λ x, x = v) array with
  | Some (i, _) => Z.of_nat i
  | None => -1
  end.

(** [array.pop()]: the removed last element and the shortened array. *)
Definition pop {A} (array : list A) : option A * list A :=
  (last array, take (length array - 1)%nat array).

End Js.

Export Js (number, NaN, Infinity, Num, int).

(** ** The helpers of [phosphor-arrays] *)

Module arrays.

(** Modelled from the spec: [arrays.insert] of the package
    phosphor-arrays is not part of the sources; the value is placed at
    the index clamped into [0, length], later elements shift up. *)
Definition insert {A} (array : list A) (index : Z) (value : A) : list A :=
  let j := Z.to_nat (Z.max 0 (Z.min index (Z.of_nat (length array)))) in
  take j array ++ value :: drop j array.

(** Modelled from the spec: [arrays.move] of phosphor-arrays; the element
    at [fromIndex] is taken out and put back at [toIndex], the elements
    between shift by one; an index out of range leaves the array as it
    is. *)
Definition move {A} (array : list A) (fromIndex toIndex : Z) : list A :=
  let n := Z.of_nat (length array) in
  if (0 <=? fromIndex) && (fromIndex <? n) && (0 <=? toIndex) && (toIndex <? n)
  then
    match array !! Z.to_nat fromIndex with
    | Some value =>
        let rest := delete (Z.to_nat fromIndex) array in
        take (Z.to_nat toIndex) rest ++ value :: drop (Z.to_nat toIndex) rest
    | None => array
    end
  else array.

(** Modelled from the spec: [arrays.remove] of phosphor-arrays; the first
    occurrence of the value is removed and its index returned, [-1] when
    there is none. *)
Definition remove `{EqDecision A} (array : list A) (value : A) : Z * list A :=
  match list_find (λ x, x = value) array with
  | Some (i, _) => (Z.of_nat i, delete i array)
  | None => (-1, array)
  end.

End arrays.

(** ** Widgets, nodes and the child list of the container node *)

(** Widgets are compared by identity. Children and containers are kept in
    two name spaces: a container is never inserted into its own layout (the
    parent setter of the toolkit rejects that before the layout is
    touched). *)
Definition Widget := nat.
Definition Container := nat.

(** [widget.node] *)
Inductive Node := NodeOf (w : Widget).

Global Instance Node_eq_dec : EqDecision Node.
Proof. solve_decision. Defined.

Module Dom.

(** [l] without [node]. *)
Definition without (node : Node) (l : list Node) : list Node :=
  filter (λ x, x ≠ node) l.

(** [node] put immediately before the first occurrence of [ref]. *)
Fixpoint place_before (node ref : Node) (l : list Node) : list Node :=
  match l with
  | [] => [node]
  | x :: l' =>
      if decide (x = ref) then node :: x :: l'
      else x :: place_before node ref l'
  end.

(** Modelled from the spec: the rendering surface of the container is the
    child list of its DOM node, which is not part of the sources.
    [Node.insertBefore(node, ref)] behaves as the DOM standard has it: a
    reference that is not a child raises NotFoundError ([None]) and nothing
    changes; a node already in the list is taken out first; without a
    reference the node goes last; a node given as its own reference stays
    where it is. *)
Definition insertBefore (childNodes : list Node) (node : Node)
    (ref : option Node) : option (list Node) :=
  match ref with
  | None => Some (without node childNodes ++ [node])
  | Some r =>
      if decide (r ∈ childNodes) then
        if decide (r = node) then Some childNodes
        else Some (place_before node r (without node childNodes))
      else None
  end.

(** Modelled from the spec: [Node.removeChild(node)] of the DOM, not part
    of the sources; a node that is not a child raises NotFoundError
    ([None]). *)
Definition removeChild (childNodes : list Node) (node : Node)
    : option (list Node) :=
  if decide (node ∈ childNodes) then Some (without node childNodes)
  else None.

End Dom.

(** ** State *)

(** The lifecycle messages a child receives through [sendMessage]. *)
Inductive Message := MsgAfterAttach | MsgBeforeDetach.

Global Instance Message_eq_dec : EqDecision Message.
Proof. solve_decision. Defined.

(** The overridable hooks, recorded when they are entered. *)
Inductive Call :=
| CallAttach (index : Z) (child : Widget)
| CallMove (fromIndex toIndex : Z) (child : Widget)
| CallDetach (index : Z) (child : Widget).

Global Instance Call_eq_dec : EqDecision Call.
Proof. solve_decision. Defined.

Record State := mkState {
  (** [this._children] *)
  children : list Widget;
  (** [this.parent], the container the layout is installed on *)
  parent : option Container;
  (** [this.parent.isAttached] *)
  isAttached : bool;
  (** the child nodes of [this.parent.node], in document order *)
  childNodes : list Node;
  (** the layout itself has been disposed *)
  layoutDisposed : bool;
  (** [w.parent] of every widget, absent for [null] *)
  widgetParent : gmap Widget Container;
  (** [w.isDisposed] *)
  widgetDisposed : gset Widget;
  (** [p.isDisposed] of the containers *)
  containerDisposed : gset Container;
  (** the messages sent to children, oldest first *)
  messages : list (Widget * Message);
  (** the hooks entered, oldest first *)
  methods : list Call;
  (** the calls of [dispose()] on children, oldest first *)
  disposals : list Widget
}.

Definition with_children (v : list Widget) (s : State) : State :=
  mkState v (parent s) (isAttached s) (childNodes s) (layoutDisposed s)
    (widgetParent s) (widgetDisposed s) (containerDisposed s)
    (messages s) (methods s) (disposals s).

Definition with_parent (v : option Container) (s : State) : State :=
  mkState (children s) v (isAttached s) (childNodes s) (layoutDisposed s)
    (widgetParent s) (widgetDisposed s) (containerDisposed s)
    (messages s) (methods s) (disposals s).

Definition with_isAttached (v : bool) (s : State) : State :=
  mkState (children s) (parent s) v (childNodes s) (layoutDisposed s)
    (widgetParent s) (widgetDisposed s) (containerDisposed s)
    (messages s) (methods s) (disposals s).

Definition with_childNodes (v : list Node) (s : State) : State :=
  mkState (children s) (parent s) (isAttached s) v (layoutDisposed s)
    (widgetParent s) (widgetDisposed s) (containerDisposed s)
    (messages s) (methods s) (disposals s).

Definition with_layoutDisposed (v : bool) (s : State) : State :=
  mkState (children s) (parent s) (isAttached s) (childNodes s) v
    (widgetParent s) (widgetDisposed s) (containerDisposed s)
    (messages s) (methods s) (disposals s).

Definition with_widgetParent (v : gmap Widget Container) (s : State) : State :=
  mkState (children s) (parent s) (isAttached s) (childNodes s)
    (layoutDisposed s) v (widgetDisposed s) (containerDisposed s)
    (messages s) (methods s) (disposals s).

Definition with_widgetDisposed (v : gset Widget) (s : State) : State :=
  mkState (children s) (parent s) (isAttached s) (childNodes s)
    (layoutDisposed s) (widgetParent s) v (containerDisposed s)
    (messages s) (methods s) (disposals s).

Definition with_messages (v : list (Widget * Message)) (s : State) : State :=
  mkState (children s) (parent s) (isAttached s) (childNodes s)
    (layoutDisposed s) (widgetParent s) (widgetDisposed s)
    (containerDisposed s) v (methods s) (disposals s).

Definition with_methods (v : list Call) (s : State) : State :=
  mkState (children s) (parent s) (isAttached s) (childNodes s)
    (layoutDisposed s) (widgetParent s) (widgetDisposed s)
    (containerDisposed s) (messages s) v (disposals s).

Definition with_disposals (v : list Widget) (s : State) : State :=
  mkState (children s) (parent s) (isAttached s) (childNodes s)
    (layoutDisposed s) (widgetParent s) (widgetDisposed s)
    (containerDisposed s) (messages s) (methods s) v.

(** ** Computations over the state that may throw *)

Inductive Error :=
| TypeError          (** a property read on [null] or [undefined] *)
| NotFoundError      (** raised by the DOM *)
| LayoutParentError  (** "Cannot change layout parent." *)
| OutOfFuel.         (** a loop of the model exhausted its bound *)

(** A thrown exception keeps the state reached when it was raised. *)
Inductive Outcome (A : Type) :=
| Ret (a : A) (s : State)
| Throw (e : Error) (s : State).
Arguments Ret {A} a s.
Arguments Throw {A} e s.

Definition M (A : Type) : Type := State → Outcome A.

Definition ret {A} (a : A) : M A := λ s, Ret a s.

Definition bind {A B} (m : M A) (k : A → M B) : M B :=
  λ s, match m s with
       | Ret a s' => k a s'
       | Throw e s' => Throw e s'
       end.

Definition throw {A} (e : Error) : M A := λ s, Throw e s.
Definition gets {A} (f : State → A) : M A := λ s, Ret (f s) s.
Definition modify (f : State → State) : M unit := λ s, Ret tt (f s).
Definition when (b : bool) (m : M unit) : M unit := if b then m else ret tt.

Notation "'let*' x ':=' m 'in' k" := (bind m (λ x, k))
  (at level 10, x binder, m at level 100, k at level 200).
Notation "m >> k" := (bind m (λ _, k))
  (at level 90, right associativity).

(** The state an outcome leaves behind, returned or thrown. *)
Definition final {A} (o : Outcome A) : State :=
  match o with Ret _ s | Throw _ s => s end.

Definition returned {A} (o : Outcome A) : bool :=
  match o with Ret _ _ => true | Throw _ _ => false end.

(** ** Collaborators: messaging and the DOM of the container *)

(** Modelled from the spec: [sendMessage(child, msg)] of
    phosphor-messaging, not part of the sources; the message is delivered
    at once and the child records it. *)
Definition sendMessage (target : Widget) (msg : Message) : M unit :=
  modify (λ s, with_messages (messages s ++ [(target, msg)]) s).

(** Records that a hook was entered. This is instrumentation: the source
    has no such log (the logging subclass of the test suite records the
    same calls, once they have returned). *)
Definition enter (c : Call) : M unit :=
  modify (λ s, with_methods (methods s ++ [c]) s).

(** [this.parent] dereferenced: a layout without a container has [null]
    there. *)
Definition theParent : M Container :=
  λ s, match parent s with
       | Some p => Ret p s
       | None => Throw TypeError s
       end.

(** [this.parent.node.insertBefore(node, ref)] *)
Definition parentInsertBefore (node : Node) (ref : option Node) : M unit :=
  let* _ := theParent in
  let* nodes := gets childNodes in
  match Dom.insertBefore nodes node ref with
  | Some nodes' => modify (with_childNodes nodes')
  | None => throw NotFoundError
  end.

(** [this.parent.node.removeChild(node)] *)
Definition parentRemoveChild (node : Node) : M unit :=
  let* _ := theParent in
  let* nodes := gets childNodes in
  match Dom.removeChild nodes node with
  | Some nodes' => modify (with_childNodes nodes')
  | None => throw NotFoundError
  end.

(** [this.parent.isAttached] *)
Definition parentIsAttached : M bool :=
  let* _ := theParent in gets isAttached.

(** ** PanelLayout *)

(** [childCount()] *)
Definition childCount : M Z :=
  gets (λ s, Z.of_nat (length (children s))).

(** [childAt(index)] *)
Definition childAt (index : number) : M (option Widget) :=
  gets (λ s, Js.get (children s) index).

(** [attachChild(index, child)] *)
Definition attachChild (index : Z) (child : Widget) : M unit :=
  enter (CallAttach index child) >>
  let* ref := childAt (int (index + 1)) in
  parentInsertBefore (NodeOf child) (NodeOf <$> ref) >>
  let* live := parentIsAttached in
  when live (sendMessage child MsgAfterAttach).

(** [moveChild(fromIndex, toIndex, child)] *)
Definition moveChild (fromIndex toIndex : Z) (child : Widget) : M unit :=
  enter (CallMove fromIndex toIndex child) >>
  let* ref := childAt (int (toIndex + 1)) in
  let* live := parentIsAttached in
  when live (sendMessage child MsgBeforeDetach) >>
  parentInsertBefore (NodeOf child) (NodeOf <$> ref) >>
  let* live := parentIsAttached in
  when live (sendMessage child MsgAfterAttach).

(** [detachChild(index, child)] *)
Definition detachChild (index : Z) (child : Widget) : M unit :=
  enter (CallDetach index child) >>
  let* live := parentIsAttached in
  when live (sendMessage child MsgBeforeDetach) >>
  parentRemoveChild (NodeOf child).

(** [arrays.remove(this._children, child)] on the state. *)
Definition removeFromChildren (child : Widget) : M Z :=
  λ s, let '(i, a) := arrays.remove (children s) child in
       Ret i (with_children a s).

(** [onChildRemoved(msg)], with [child] for [msg.child] *)
Definition onChildRemoved (child : Widget) : M unit :=
  let* i := removeFromChildren child in
  if decide (i ≠ -1) then detachChild i child else ret tt.

(** ** Collaborators: the parent link and the disposal of a widget *)

(** Modelled from the spec: the setter of [Widget.parent] in
    phosphor-widget, not part of the sources. An unchanged parent is left
    alone; otherwise the old parent, unless disposed, receives
    'child-removed', which its layout handles in [onChildRemoved]; then the
    link is stored (and the new parent told 'child-added', which the layout
    ignores). Only the container of this layout has this layout. *)
Definition setParent (child : Widget) (value : option Container) : M unit :=
  let* old := gets (λ s, widgetParent s !! child) in
  if decide (old = value) then ret tt
  else
    match old with
    | Some p =>
        let* gone := gets (λ s, bool_decide (p ∈ containerDisposed s)) in
        let* mine := gets (λ s, bool_decide (parent s = Some p)) in
        when (negb gone && mine) (onChildRemoved child)
    | None => ret tt
    end >>
    modify (λ s, with_widgetParent
                   (match value with
                    | Some p => <[child := p]> (widgetParent s)
                    | None => delete child (widgetParent s)
                    end) s).

(** Modelled from the spec: [Widget.dispose()] of phosphor-widget, not part
    of the sources. A widget already disposed returns at once; otherwise it
    is flagged and, when it has a parent, unparented, which is what sends
    the removal notification back to the layout. (A parentless widget
    detaches itself from the document, which does not involve the
    layout.) *)
Definition disposeWidget (w : Widget) : M unit :=
  modify (λ s, with_disposals (disposals s ++ [w]) s) >>
  let* done := gets (λ s, bool_decide (w ∈ widgetDisposed s)) in
  if done then ret tt
  else
    modify (λ s, with_widgetDisposed ({[w]} ∪ widgetDisposed s) s) >>
    let* p := gets (λ s, widgetParent s !! w) in
    match p with
    | Some _ => setParent w None
    | None => ret tt
    end.

(** ** PanelLayout, continued *)

(** [insertChild(index, child)] *)
Definition insertChild (index : number) (child : Widget) : M unit :=
  let* p := gets parent in
  setParent child p >>
  let* n := gets (λ s, Z.of_nat (length (children s))) in
  let* i := gets (λ s, Js.indexOf (children s) child) in
  let j := Z.max 0 (Z.min (Js.bitor index (int 0)) n) in
  if decide (i ≠ -1) then
    let j := if decide (j = n) then j - 1 else j in
    if decide (i = j) then ret tt
    else
      modify (λ s, with_children (arrays.move (children s) i j) s) >>
      let* p := gets parent in
      when (bool_decide (is_Some p)) (moveChild i j child)
  else
    modify (λ s, with_children (arrays.insert (children s) j child) s) >>
    let* p := gets parent in
    when (bool_decide (is_Some p)) (attachChild j child).

(** [addChild(child)] *)
Definition addChild (child : Widget) : M unit :=
  let* n := childCount in
  insertChild (int n) child.

(** The loop of [initialize()], from index [i] on. The bound [fuel] stands
    for the iterations the model allows. *)
Fixpoint initialize_loop (fuel : nat) (i : Z) : M unit :=
  let* n := childCount in
  if decide (i < n) then
    match fuel with
    | O => throw OutOfFuel
    | S fuel' =>
        let* child := childAt (int i) in
        match child with
        | Some c =>
            let* p := gets parent in
            setParent c p >>
            attachChild i c >>
            initialize_loop fuel' (i + 1)
        | None => throw TypeError
        end
    end
  else ret tt.

(** [initialize()] *)
Definition initialize : M unit :=
  let* n := gets (λ s, length (children s)) in
  initialize_loop n 0.

(** [this._children.pop()] on the state. *)
Definition popChild : M (option Widget) :=
  λ s, let '(w, a) := Js.pop (children s) in
       Ret w (with_children a s).

(** Modelled from the spec: [dispose()] of the base class in
    phosphor-widget, not part of the sources, which releases what the
    layout holds: the layout is flagged and drops its container. *)
Definition superDispose : M unit :=
  modify (λ s, with_layoutDisposed true (with_parent None s)).

(** The [while] loop of [dispose()]. *)
Fixpoint dispose_loop (fuel : nat) : M unit :=
  let* n := gets (λ s, length (children s)) in
  if decide (0 < n)%nat then
    match fuel with
    | O => throw OutOfFuel
    | S fuel' =>
        let* w := popChild in
        match w with
        | Some c => disposeWidget c
        | None => throw TypeError
        end >>
        dispose_loop fuel'
    end
  else ret tt.

(** [dispose()] *)
Definition dispose : M unit :=
  let* n := gets (λ s, length (children s)) in
  dispose_loop n >>
  superDispose.

(** Modelled from the spec: the setter of [Layout.parent] in
    phosphor-widget, not part of the sources, run when the layout is
    installed on a container: a layout that has a container cannot change
    it; otherwise the container is stored and [initialize()] runs. The
    container comes with no child nodes and with its own liveness. *)
Definition install (p : Container) (live : bool) : M unit :=
  let* cur := gets parent in
  match cur with
  | Some q => if decide (q = p) then ret tt else throw LayoutParentError
  | None =>
      modify (λ s, with_parent (Some p)
                     (with_isAttached live (with_childNodes [] s))) >>
      initialize
  end.

(** A layout just constructed, in a world where no widget has a parent. *)
Definition newLayout : State :=
  mkState [] None false [] false ∅ ∅ ∅ [] [] [].

(** ** Notions used in the statements *)

(** [count()] of the specification. *)
Definition count (s : State) : Z := Z.of_nat (length (children s)).

(** The index [insertChild] works with: [index | 0] clamped into
    [0, n]. *)
Definition clampIndex (index : number) (n : Z) : Z :=
  Z.max 0 (Z.min (Js.ToInt32 index) n).

(** Clamping an integer into [0, n] with no conversion before it. *)
Definition clampPlain (index n : Z) : Z := Z.max 0 (Z.min index n).

(** The target of a child that is already in the layout: the end of the
    sequence means its last position. *)
Definition moveTarget (j n : Z) : Z := if decide (j = n) then j - 1 else j.

(** What inserting a child found at position [i] leaves behind, for a
    target [t]: nothing happens when [t] is [i]; otherwise the child sits at
    [t], taking it out there gives what taking it out at [i] gave before
    (the other children keep their order), and of the hooks only
    [moveChild] runs, exactly when there is a container. *)
Definition existing_child_post (s : State) (child : Widget) (i t : Z)
    (s' : State) : Prop :=
  if decide (t = i) then
    children s' = children s ∧ childNodes s' = childNodes s
    ∧ messages s' = messages s ∧ methods s' = methods s
  else
    children s' !! Z.to_nat t = Some child
    ∧ delete (Z.to_nat t) (children s') = delete (Z.to_nat i) (children s)
    ∧ count s' = count s
    ∧ methods s' = methods s ++ match parent s with
                                | Some _ => [CallMove i t child]
                                | None => []
                                end.

(** What inserting a child that was not in the layout leaves behind, for a
    target [t]. *)
Definition new_child_post (s : State) (child : Widget) (t : Z)
    (s' : State) : Prop :=
  children s'
    = take (Z.to_nat t) (children s) ++ child :: drop (Z.to_nat t) (children s)
  ∧ Js.indexOf (children s') child = t
  ∧ count s' = count s + 1
  ∧ widgetParent s' !! child = parent s
  ∧ methods s' = methods s ++ match parent s with
                              | Some _ => [CallAttach t child]
                              | None => []
                              end.

(** The child nodes of the container are the nodes of the children, in the
    order of the sequence. *)
Definition synced (s : State) : Prop :=
  childNodes s = NodeOf <$> children s.

(** The node handed to [insertBefore] as reference by a hook called with
    [index] is a child node of the container (or there is no reference). *)
Definition refPlaced (index : Z) (s : State) : Prop :=
  match Js.get (children s) (int (index + 1)) with
  | Some r => NodeOf r ∈ childNodes s
  | None => True
  end.

(** The state in which a hook works once it is entered. *)
Definition entered (c : Call) (s : State) : State :=
  with_methods (methods s ++ [c]) s.

Definition told (w : Widget) (msg : Message) (s : State) : State :=
  with_messages (messages s ++ [(w, msg)]) s.

(** The parent link of [child] set to [value]. *)
Definition relink (child : Widget) (value : option Container) (s : State)
    : State :=
  with_widgetParent
    (match value with
     | Some p => <[child := p]> (widgetParent s)
     | None => delete child (widgetParent s)
     end) s.

(** What [dispose()] leaves alone in the layout. *)
Definition undisturbed (s s' : State) : Prop :=
  childNodes s' = childNodes s ∧ methods s' = methods s
  ∧ messages s' = messages s ∧ parent s' = parent s
  ∧ isAttached s' = isAttached s.

(** A hook leaves the sequence, the container and the widgets alone. *)
Definition frame (s s' : State) : Prop :=
  children s' = children s ∧ parent s' = parent s
  ∧ isAttached s' = isAttached s ∧ layoutDisposed s' = layoutDisposed s
  ∧ widgetParent s' = widgetParent s ∧ widgetDisposed s' = widgetDisposed s
  ∧ containerDisposed s' = containerDisposed s ∧ disposals s' = disposals s.

(** The operations a layout receives from outside. *)
Inductive Op :=
| OpInsert (index : number) (child : Widget)
| OpAdd (child : Widget)
| OpChildRemoved (child : Widget)
| OpDispose
| OpInstall (p : Container) (live : bool).

Definition perform (op : Op) : M unit :=
  match op with
  | OpInsert index child => insertChild index child
  | OpAdd child => addChild child
  | OpChildRemoved child => onChildRemoved child
  | OpDispose => dispose
  | OpInstall p live => install p live
  end.

(** The states a layout goes through: it starts without children and every
    operation, returning or throwing, leads to the next state. *)
Inductive reachable : State → Prop :=
| reachable_new s : children s = [] → reachable s
| reachable_step s op : reachable s → reachable (final (perform op s)).

(** Where a child stands with respect to the layout. *)
Inductive Presence := Absent | PresentDetached | PresentAttached.

Definition presence (s : State) (c : Widget) : Presence :=
  if decide (c ∈ children s) then
    if decide (is_Some (parent s) ∧ NodeOf c ∈ childNodes s)
    then PresentAttached else PresentDetached
  else Absent.

(** [addChild] of each widget of [l], in order; a throw ends the run. *)
Definition addAll (l : list Widget) : M unit :=
  foldr (λ c k, addChild c >> k) (ret tt) l.

(** One operation after the other; a throw ends the run. *)
Definition runAll (ops : list Op) : M unit :=
  foldr (λ op k, perform op >> k) (ret tt) ops.

(** The operations that edit the sequence of a layout in use. *)
Definition editing (op : Op) : bool :=
  match op with
  | OpInsert _ _ | OpAdd _ | OpChildRemoved _ => true
  | OpDispose | OpInstall _ _ => false
  end.

(** The messages [insertChild] is expected to cause on a live container:
    none for a child that stays in place, the detach/attach pair for a
    child that moves, 'after-attach' for a new child. *)
Definition insertMessages (s : State) (index : number) (child : Widget)
    : list (Widget * Message) :=
  if decide (child ∈ children s) then
    if decide (Js.indexOf (children s) child
               = moveTarget (clampIndex index (count s)) (count s))
    then []
    else [(child, MsgBeforeDetach); (child, MsgAfterAttach)]
  else [(child, MsgAfterAttach)].

(** Every child node of the container is the node of a child of the
    sequence, as long as the layout has its container. *)
Definition ownsNodes (s : State) : Prop :=
  is_Some (parent s) → ∀ c, NodeOf c ∈ childNodes s → c ∈ children s.

(** The same without the proviso: every child node is the node of a child
    of the sequence, and a layout that has no container has no child node
    to account for. *)
Definition nodesOwned (s : State) : Prop :=
  (∀ c, NodeOf c ∈ childNodes s → c ∈ children s)
  ∧ (parent s = None → childNodes s = []).

(** [dispose()] among the operations. *)
Definition disposing (op : Op) : bool :=
  match op with OpDispose => true | _ => false end.

(** The state after each operation of [ops] in turn, the next operation
    starting from the state the previous one left, returned or thrown. *)
Definition afterAll (ops : list Op) (s : State) : State :=
  foldl (λ s op, final (perform op s)) s ops.

(** ** Sample widgets and layouts *)

Definition widgetA : Widget := 0%nat.
Definition widgetB : Widget := 1%nat.
Definition widgetC : Widget := 2%nat.
Definition panel : Container := 7%nat.

(** An empty layout installed on a container that is live. *)
Definition livePanel : State :=
  final (perform (OpInstall panel true) newLayout).

(** The live layout after [addChild(A)]. *)
Definition oneChild : State := final (perform (OpAdd widgetA) livePanel).

(** The live layout after [addChild(A); addChild(B)]. *)
Definition twoChildren : State := final (perform (OpAdd widgetB) oneChild).

(** A layout that was given A and B before it has a container. *)
Definition twoPending : State :=
  final ((addChild widgetA >> addChild widgetB) newLayout).

(** A layout that was given B, C and A before it has a container. *)
Definition threePending : State :=
  final ((addChild widgetB >> addChild widgetC >> addChild widgetA) newLayout).

(** The layout that was given B, C and A and is then installed on a live
    container: the state in which [initialize()] leaves it. *)
Definition threeInstalled : State :=
  final (perform (OpInstall panel true) threePending).

(** ** Facts about the JavaScript primitives *)

Section JsFacts.

Lemma wrap32_range z : - 2 ^ 31 ≤ Js.wrap32 z < 2 ^ 31.
Proof.
  unfold Js.wrap32.
  pose proof (Z.mod_pos_bound (z + 2 ^ 31) (2 ^ 32)) as H. lia.
Qed.

Lemma wrap32_small z : - 2 ^ 31 ≤ z < 2 ^ 31 → Js.wrap32 z = z.
Proof.
  intros H. unfold Js.wrap32. rewrite Z.mod_small; lia.
Qed.

Lemma wrap32_upper z :
  2 ^ 31 ≤ z < 2 ^ 32 → Js.wrap32 z = z - 2 ^ 32.
Proof.
  intros H. unfold Js.wrap32.
  replace (z + 2 ^ 31) with ((z - 2 ^ 31) + 1 * 2 ^ 32) by lia.
  rewrite Z.mod_add by lia. rewrite Z.mod_small; lia.
Qed.

Lemma trunc_int z : Js.trunc (inject_Z z) = z.
Proof. unfold Js.trunc; simpl. apply Z.quot_1_r. Qed.

Lemma ToInt32_int z : Js.ToInt32 (int z) = Js.wrap32 z.
Proof. unfold int; simpl. by rewrite trunc_int. Qed.

Lemma ToInt32_range x : - 2 ^ 31 ≤ Js.ToInt32 x < 2 ^ 31.
Proof.
  destruct x; simpl; try (split; [lia | reflexivity]).
  apply wrap32_range.
Qed.

(** [x | 0] is ToInt32 of [x]. *)
Lemma bitor_zero x : Js.bitor x (int 0) = Js.ToInt32 x.
Proof.
  unfold Js.bitor. rewrite (ToInt32_int 0).
  rewrite (wrap32_small 0) by (split; [lia | reflexivity]).
  rewrite Z.lor_0_r. apply wrap32_small, ToInt32_range.
Qed.

(** Rounding toward zero is the floor of a non-negative rational and the
    ceiling of a non-positive one. *)
Lemma trunc_floor q : (0 <= q)%Q → Js.trunc q = Qfloor q.
Proof.
  destruct q as [a b]. unfold Qle, Js.trunc, Qfloor; simpl. intros H.
  apply Z.quot_div_nonneg; lia.
Qed.

Lemma trunc_ceiling q : (q <= 0)%Q → Js.trunc q = Qceiling q.
Proof.
  destruct q as [a b]. unfold Qle, Js.trunc, Qceiling, Qfloor; simpl.
  intros H.
  replace a with (- (- a)) at 1 by lia.
  rewrite Z.quot_opp_l by lia. f_equal.
  apply Z.quot_div_nonneg; lia.
Qed.

Lemma get_int {A} (array : list A) (z : Z) :
  Js.get array (int z) = if decide (0 ≤ z) then array !! Z.to_nat z else None.
Proof.
  unfold Js.get, int, Js.is_integer. simpl.
  rewrite Z.mod_1_r. simpl. rewrite trunc_int.
  destruct (Z.leb_spec 0 z); case_decide; try lia; done.
Qed.

Lemma get_int_lookup {A} (array : list A) (k : nat) :
  Js.get array (int (Z.of_nat k)) = array !! k.
Proof.
  rewrite get_int. case_decide; [| lia]. by rewrite Nat2Z.id.
Qed.

Lemma get_negative {A} (array : list A) (q : Q) :
  (q < 0)%Q → Js.get array (Num q) = None.
Proof.
  destruct q as [a b]. unfold Qlt; simpl. intros H.
  destruct (Z.leb_spec 0 a); [lia |]. by rewrite andb_false_r.
Qed.

Lemma get_beyond {A} (array : list A) (q : Q) :
  (inject_Z (Z.of_nat (length array)) <= q)%Q → Js.get array (Num q) = None.
Proof.
  destruct q as [a b]. unfold Qle; simpl. intros H.
  case_match; [| done].
  apply lookup_ge_None_2.
  unfold Js.trunc; simpl.
  assert (0 ≤ a) by (apply andb_prop in H0 as [_ ?]; lia).
  rewrite Z.quot_div_nonneg by lia.
  assert (Z.of_nat (length array) ≤ a / Z.pos b).
  { apply Z.div_le_lower_bound; lia. }
  lia.
Qed.

Lemma get_integer {A} (array : list A) (q : Q) (k : nat) :
  (q == inject_Z (Z.of_nat k))%Q → Js.get array (Num q) = array !! k.
Proof.
  destruct q as [a b]. unfold Qeq; simpl. intros H.
  assert (Ha : a = Z.of_nat k * Z.pos b) by lia.
  unfold Js.is_integer, Js.trunc; simpl. subst a.
  rewrite Z.mod_mul by lia. simpl.
  destruct (Z.leb_spec 0 (Z.of_nat k * Z.pos b)); [| lia].
  rewrite Z.quot_mul by lia. by rewrite Nat2Z.id.
Qed.

Context `{EqDecision A}.

Lemma indexOf_absent (array : list A) (v : A) :
  v ∉ array → Js.indexOf array v = -1.
Proof.
  intros H. unfold Js.indexOf.
  destruct (list_find _ array) as [[i x]|] eqn:E; [| done].
  apply list_find_Some in E as (Hi & -> & _).
  exfalso. apply H. eapply list_elem_of_lookup_2; eauto.
Qed.

Lemma indexOf_present (array : list A) (v : A) :
  v ∈ array →
  ∃ i : nat, Js.indexOf array v = Z.of_nat i ∧ array !! i = Some v
             ∧ ∀ k x, array !! k = Some x → (k < i)%nat → x ≠ v.
Proof.
  intros H. unfold Js.indexOf.
  destruct (list_find _ array) as [[i x]|] eqn:E.
  - apply list_find_Some in E as (Hi & -> & Hlt). exists i. eauto.
  - exfalso. eapply list_find_None in E.
    rewrite Forall_forall in E. by apply (E v).
Qed.

Lemma indexOf_minus_one (array : list A) (v : A) :
  Js.indexOf array v = -1 → v ∉ array.
Proof.
  intros H Hin. destruct (indexOf_present array v Hin) as (i & Hi & _).
  lia.
Qed.

Lemma remove_absent (array : list A) (v : A) :
  v ∉ array → arrays.remove array v = (-1, array).
Proof.
  intros H. unfold arrays.remove.
  destruct (list_find _ array) as [[i x]|] eqn:E; [| done].
  apply list_find_Some in E as (Hi & -> & _).
  exfalso. apply H. eapply list_elem_of_lookup_2; eauto.
Qed.

Lemma remove_present (array : list A) (v : A) :
  v ∈ array →
  ∃ i : nat, arrays.remove array v = (Z.of_nat i, delete i array)
             ∧ array !! i = Some v.
Proof.
  intros H. unfold arrays.remove.
  destruct (list_find _ array) as [[i x]|] eqn:E.
  - apply list_find_Some in E as (Hi & -> & Hlt). exists i. eauto.
  - exfalso. eapply list_find_None in E.
    rewrite Forall_forall in E. by apply (E v).
Qed.

End JsFacts.

(** ** The hooks, as equations *)

Lemma with_children_id s : with_children (children s) s = s.
Proof. by destruct s. Qed.

Lemma with_widgetParent_id s : with_widgetParent (widgetParent s) s = s.
Proof. by destruct s. Qed.

Ltac munfold :=
  cbv beta iota delta
    [bind gets modify ret throw when theParent parentIsAttached
     parentInsertBefore parentRemoveChild sendMessage enter childAt
     childCount removeFromChildren popChild superDispose] in *.

Ltac fields :=
  cbn [children parent isAttached childNodes layoutDisposed widgetParent
       widgetDisposed containerDisposed messages methods disposals
       with_children with_parent with_isAttached with_childNodes
       with_layoutDisposed with_widgetParent with_widgetDisposed
       with_messages with_methods with_disposals final returned] in *.

Ltac mrun Hp Ha Hd :=
  repeat (progress (fields; rewrite ?Hp, ?Ha, ?Hd)).

Lemma attachChild_eq index child s :
  attachChild index child s =
  let s1 := entered (CallAttach index child) s in
  match parent s with
  | None => Throw TypeError s1
  | Some _ =>
      match Dom.insertBefore (childNodes s) (NodeOf child)
              (NodeOf <$> Js.get (children s) (int (index + 1))) with
      | None => Throw NotFoundError s1
      | Some nodes =>
          let s2 := with_childNodes nodes s1 in
          Ret tt (if isAttached s then told child MsgAfterAttach s2 else s2)
      end
  end.
Proof.
  unfold attachChild, entered, told; munfold.
  destruct (parent s) eqn:Hp, (isAttached s) eqn:Ha,
    (Dom.insertBefore (childNodes s) (NodeOf child)
       (NodeOf <$> Js.get (children s) (int (index + 1)))) eqn:Hd;
    mrun Hp Ha Hd; done.
Qed.

Lemma moveChild_eq fromIndex toIndex child s :
  moveChild fromIndex toIndex child s =
  let s1 := entered (CallMove fromIndex toIndex child) s in
  match parent s with
  | None => Throw TypeError s1
  | Some _ =>
      let s2 := if isAttached s then told child MsgBeforeDetach s1 else s1 in
      match Dom.insertBefore (childNodes s) (NodeOf child)
              (NodeOf <$> Js.get (children s) (int (toIndex + 1))) with
      | None => Throw NotFoundError s2
      | Some nodes =>
          let s3 := with_childNodes nodes s2 in
          Ret tt (if isAttached s then told child MsgAfterAttach s3 else s3)
      end
  end.
Proof.
  unfold moveChild, entered, told; munfold.
  destruct (parent s) eqn:Hp, (isAttached s) eqn:Ha,
    (Dom.insertBefore (childNodes s) (NodeOf child)
       (NodeOf <$> Js.get (children s) (int (toIndex + 1)))) eqn:Hd;
    mrun Hp Ha Hd; done.
Qed.

Lemma detachChild_eq index child s :
  detachChild index child s =
  let s1 := entered (CallDetach index child) s in
  match parent s with
  | None => Throw TypeError s1
  | Some _ =>
      let s2 := if isAttached s then told child MsgBeforeDetach s1 else s1 in
      match Dom.removeChild (childNodes s) (NodeOf child) with
      | None => Throw NotFoundError s2
      | Some nodes => Ret tt (with_childNodes nodes s2)
      end
  end.
Proof.
  unfold detachChild, entered, told; munfold.
  destruct (parent s) eqn:Hp, (isAttached s) eqn:Ha,
    (Dom.removeChild (childNodes s) (NodeOf child)) eqn:Hd;
    mrun Hp Ha Hd; done.
Qed.

Lemma onChildRemoved_eq child s :
  onChildRemoved child s =
  match arrays.remove (children s) child with
  | (i, a) =>
      if decide (i ≠ -1) then detachChild i child (with_children a s)
      else Ret tt (with_children a s)
  end.
Proof.
  unfold onChildRemoved; munfold.
  destruct (arrays.remove _ _) as [i a]. by case_decide.
Qed.

Lemma attachChild_frame index child s :
  frame s (final (attachChild index child s)).
Proof.
  rewrite attachChild_eq; simpl. unfold frame.
  repeat case_match; simpl; done.
Qed.

Lemma moveChild_frame fromIndex toIndex child s :
  frame s (final (moveChild fromIndex toIndex child s)).
Proof.
  rewrite moveChild_eq; simpl. unfold frame.
  repeat case_match; simpl; done.
Qed.

Lemma detachChild_frame index child s :
  frame s (final (detachChild index child s)).
Proof.
  rewrite detachChild_eq; simpl. unfold frame.
  repeat case_match; simpl; done.
Qed.

Lemma attachChild_methods index child s :
  methods (final (attachChild index child s))
  = methods s ++ [CallAttach index child].
Proof. rewrite attachChild_eq; simpl. repeat case_match; done. Qed.

Lemma moveChild_methods fromIndex toIndex child s :
  methods (final (moveChild fromIndex toIndex child s))
  = methods s ++ [CallMove fromIndex toIndex child].
Proof. rewrite moveChild_eq; simpl. repeat case_match; done. Qed.

Lemma detachChild_methods index child s :
  methods (final (detachChild index child s))
  = methods s ++ [CallDetach index child].
Proof. rewrite detachChild_eq; simpl. repeat case_match; done. Qed.

(** ** The parent link and [insertChild], as equations *)

Lemma relink_same child value s :
  widgetParent s !! child = value → relink child value s = s.
Proof.
  intros H. unfold relink. destruct value as [p|].
  - rewrite insert_id by done. apply with_widgetParent_id.
  - rewrite delete_id by done. apply with_widgetParent_id.
Qed.

Lemma relink_lookup child value s :
  widgetParent (relink child value s) !! child = value.
Proof.
  unfold relink; fields. destruct value.
  - apply lookup_insert_eq.
  - apply lookup_delete_eq.
Qed.

Lemma setParent_eq child value s :
  setParent child value s =
  if decide (widgetParent s !! child = value) then Ret tt s
  else
    match widgetParent s !! child with
    | Some p =>
        if negb (bool_decide (p ∈ containerDisposed s))
           && bool_decide (parent s = Some p)
        then match onChildRemoved child s with
             | Ret _ s' => Ret tt (relink child value s')
             | Throw e s' => Throw e s'
             end
        else Ret tt (relink child value s)
    | None => Ret tt (relink child value s)
    end.
Proof.
  unfold setParent, relink; munfold.
  case_decide; [done |].
  destruct (widgetParent s !! child) as [p|]; [| done].
  destruct (negb _ && _); [| done].
  by destruct (onChildRemoved child s).
Qed.

(** Adopting the container of the layout never comes back to the layout. *)
Lemma setParent_own child s :
  setParent child (parent s) s = Ret tt (relink child (parent s) s).
Proof.
  rewrite setParent_eq. case_decide as Hold.
  - by rewrite relink_same.
  - destruct (widgetParent s !! child) as [p|] eqn:Hp; [| done].
    rewrite (bool_decide_eq_false_2 (parent s = Some p)) by congruence.
    by rewrite andb_false_r.
Qed.

Lemma insertChild_eq index child s :
  insertChild index child s =
  let s1 := relink child (parent s) s in
  let n := count s in
  let i := Js.indexOf (children s) child in
  let j := clampIndex index n in
  if decide (i ≠ -1) then
    let t := moveTarget j n in
    if decide (i = t) then Ret tt s1
    else
      let s2 := with_children (arrays.move (children s) i t) s1 in
      match parent s with
      | Some _ => moveChild i t child s2
      | None => Ret tt s2
      end
  else
    let s2 := with_children (arrays.insert (children s) j child) s1 in
    match parent s with
    | Some _ => attachChild j child s2
    | None => Ret tt s2
    end.
Proof.
  unfold insertChild, bind at 1. unfold gets at 1.
  unfold bind at 1. rewrite setParent_own.
  unfold clampIndex, moveTarget, count, relink; munfold; fields.
  rewrite bitor_zero.
  repeat case_decide; try done; fields;
    destruct (parent s); done.
Qed.

(** ** Facts about the array helpers *)

Section ArrayFacts.

Context `{EqDecision A}.
Implicit Types (a : list A) (v : A).

Lemma indexOf_app_fresh a1 a2 v :
  v ∉ a1 → Js.indexOf (a1 ++ v :: a2) v = Z.of_nat (length a1).
Proof.
  intros Hfresh.
  destruct (indexOf_present (a1 ++ v :: a2) v) as (i & -> & Hi & Hmin).
  { set_solver. }
  f_equal.
  destruct (Nat.lt_trichotomy i (length a1)) as [Hlt | [-> | Hgt]]; [| done |].
  - rewrite lookup_app_l in Hi by done.
    exfalso. apply Hfresh. eapply list_elem_of_lookup_2; eauto.
  - exfalso. eapply (Hmin (length a1) v); [| done | done].
    by rewrite list_lookup_middle.
Qed.

Lemma insert_clamped a (j : Z) v :
  0 ≤ j ≤ Z.of_nat (length a) →
  arrays.insert a j v = take (Z.to_nat j) a ++ v :: drop (Z.to_nat j) a.
Proof.
  intros H. unfold arrays.insert.
  by rewrite Z.min_l, Z.max_r by lia.
Qed.

Lemma insert_NoDup a (j : Z) v :
  NoDup a → v ∉ a → NoDup (arrays.insert a j v).
Proof.
  intros Hnd Hv. unfold arrays.insert.
  set (k := Z.to_nat _).
  rewrite <- (take_drop k a) in Hnd, Hv.
  apply NoDup_app in Hnd as (H1 & H2 & H3).
  apply NoDup_app. split_and!; [done | | ].
  - intros x Hx. rewrite elem_of_cons. intros [-> | Hx'].
    + apply Hv. set_solver.
    + by apply (H2 x).
  - apply NoDup_cons. split; [set_solver | done].
Qed.

Lemma move_in_range a (i t : Z) v :
  0 ≤ i → 0 ≤ t < Z.of_nat (length a) → a !! Z.to_nat i = Some v →
  arrays.move a i t =
    take (Z.to_nat t) (delete (Z.to_nat i) a)
    ++ v :: drop (Z.to_nat t) (delete (Z.to_nat i) a).
Proof.
  intros Hi Ht Hv. unfold arrays.move.
  pose proof (lookup_lt_Some _ _ _ Hv) as Hlt.
  destruct (Z.leb_spec 0 i); [| lia].
  destruct (Z.ltb_spec i (Z.of_nat (length a))); [| lia].
  destruct (Z.leb_spec 0 t); [| lia].
  destruct (Z.ltb_spec t (Z.of_nat (length a))); [| lia].
  simpl. by rewrite Hv.
Qed.

Lemma move_lookup a (i t : Z) v :
  0 ≤ i → 0 ≤ t < Z.of_nat (length a) → a !! Z.to_nat i = Some v →
  arrays.move a i t !! Z.to_nat t = Some v.
Proof.
  intros Hi Ht Hv. rewrite (move_in_range a i t v) by done.
  pose proof (lookup_lt_Some _ _ _ Hv) as Hlt.
  rewrite lookup_app_r; rewrite length_take, length_delete by done; [| lia].
  by replace (Z.to_nat t - _)%nat with 0%nat by lia.
Qed.

Lemma move_delete a (i t : Z) v :
  0 ≤ i → 0 ≤ t < Z.of_nat (length a) → a !! Z.to_nat i = Some v →
  delete (Z.to_nat t) (arrays.move a i t) = delete (Z.to_nat i) a.
Proof.
  intros Hi Ht Hv. rewrite (move_in_range a i t v) by done.
  pose proof (lookup_lt_Some _ _ _ Hv) as Hlt.
  set (rest := delete (Z.to_nat i) a).
  assert (Hlen : length (take (Z.to_nat t) rest) = Z.to_nat t).
  { unfold rest. rewrite length_take, length_delete by done. lia. }
  rewrite <- Hlen at 1. rewrite delete_middle. apply take_drop.
Qed.

Lemma delete_NoDup a (k : nat) v :
  NoDup a → a !! k = Some v → NoDup (delete k a) ∧ v ∉ delete k a.
Proof.
  intros Hnd Hv.
  rewrite <- (take_drop_middle a k v) in Hnd by done.
  rewrite delete_take_drop.
  apply NoDup_app in Hnd as (H1 & H2 & H3).
  apply NoDup_cons in H3 as (H3 & H4).
  split.
  - apply NoDup_app. split_and!; [done | | done].
    intros x Hx Hx'. apply (H2 x Hx). set_solver.
  - intros Hin. apply elem_of_app in Hin as [Hin | Hin]; [| done].
    apply (H2 v Hin). set_solver.
Qed.

Lemma move_NoDup a (i t : Z) : NoDup a → NoDup (arrays.move a i t).
Proof.
  intros Hnd. unfold arrays.move. case_match; [| done].
  destruct (a !! Z.to_nat i) as [v|] eqn:Hv; [| done].
  destruct (delete_NoDup a _ v Hnd Hv) as [Hnd' Hv'].
  set (k := Z.to_nat t).
  rewrite <- (take_drop k (delete (Z.to_nat i) a)) in Hnd', Hv'.
  apply NoDup_app in Hnd' as (H1 & H2 & H3).
  apply NoDup_app. split_and!; [done | | ].
  - intros x Hx. rewrite elem_of_cons. intros [-> | Hx'].
    + apply Hv'. set_solver.
    + by apply (H2 x).
  - apply NoDup_cons. split; [set_solver | done].
Qed.

Lemma move_length a (i t : Z) : length (arrays.move a i t) = length a.
Proof.
  unfold arrays.move. case_match eqn:Hr; [| done].
  destruct (a !! Z.to_nat i) as [v|] eqn:Hv; [| done].
  pose proof (lookup_lt_Some _ _ _ Hv) as Hlt.
  rewrite length_app; simpl. rewrite length_take, length_drop, length_delete by done.
  apply andb_prop in Hr as [Hr Ht]. lia.
Qed.

End ArrayFacts.

(** ** Inserting *)

Lemma clampIndex_range index n : 0 ≤ n → 0 ≤ clampIndex index n ≤ n.
Proof. unfold clampIndex. lia. Qed.

Lemma moveTarget_range j n : 0 < n → 0 ≤ j ≤ n → 0 ≤ moveTarget j n < n.
Proof. unfold moveTarget. case_decide; lia. Qed.

(** The children after [insertChild], whatever the hooks do. *)
Lemma insertChild_children index child s :
  children (final (insertChild index child s)) =
  let n := count s in
  let i := Js.indexOf (children s) child in
  let j := clampIndex index n in
  if decide (i ≠ -1) then
    if decide (i = moveTarget j n) then children s
    else arrays.move (children s) i (moveTarget j n)
  else arrays.insert (children s) j child.
Proof.
  rewrite insertChild_eq. cbv zeta.
  repeat case_decide; try done; destruct (parent s); try done.
  - match goal with
    | |- context [moveChild ?i ?t ?c ?s2] =>
        by destruct (moveChild_frame i t c s2) as [-> _]
    end.
  - match goal with
    | |- context [attachChild ?t ?c ?s2] =>
        by destruct (attachChild_frame t c s2) as [-> _]
    end.
Qed.

Lemma insertChild_methods index child s :
  methods (final (insertChild index child s)) =
  methods s ++
  let n := count s in
  let i := Js.indexOf (children s) child in
  let j := clampIndex index n in
  match parent s with
  | None => []
  | Some _ =>
      if decide (i ≠ -1) then
        if decide (i = moveTarget j n) then []
        else [CallMove i (moveTarget j n) child]
      else [CallAttach j child]
  end.
Proof.
  rewrite insertChild_eq. cbv zeta.
  repeat case_decide; destruct (parent s);
    rewrite ?moveChild_methods, ?attachChild_methods; fields;
    by rewrite ?app_nil_r.
Qed.

Lemma insertChild_widgetParent index child s :
  widgetParent (final (insertChild index child s)) !! child = parent s.
Proof.
  rewrite insertChild_eq. cbv zeta.
  repeat case_decide; destruct (parent s) eqn:Hp; fields;
    try (rewrite <- Hp at 2; apply relink_lookup);
    try apply relink_lookup.
  - match goal with
    | |- context [moveChild ?i ?t ?c ?s2] =>
        destruct (moveChild_frame i t c s2) as (_ & _ & _ & _ & -> & _)
    end.
    fields. apply relink_lookup.
  - match goal with
    | |- context [attachChild ?t ?c ?s2] =>
        destruct (attachChild_frame t c s2) as (_ & _ & _ & _ & -> & _)
    end.
    fields. apply relink_lookup.
Qed.

Lemma insertChild_same_place index child s :
  Js.indexOf (children s) child ≠ -1 →
  Js.indexOf (children s) child
    = moveTarget (clampIndex index (count s)) (count s) →
  insertChild index child s = Ret tt (relink child (parent s) s).
Proof.
  intros Hi Ht. rewrite insertChild_eq. cbv zeta.
  by rewrite decide_True, decide_True.
Qed.

(** C1, amended: for a child found at position [i], [insertChild] takes the
    requested index through [index | 0], clamps that into [0, count] and
    turns a target equal to [count] into [count - 1]; a target equal to [i]
    changes nothing (sequence, container nodes, messages and hook calls are
    as before); otherwise the child ends at the target, the other children
    keep their order, and of the hooks exactly [moveChild] is entered,
    exactly when the layout has a container. *)
Theorem insertChild_existing_child s index child :
  child ∈ children s →
  existing_child_post s child
    (Js.indexOf (children s) child)
    (moveTarget (clampIndex index (count s)) (count s))
    (final (insertChild index child s)).
Proof.
  intros Hin.
  destruct (indexOf_present _ _ Hin) as (i & Hi & Hlook & _).
  pose proof (lookup_lt_Some _ _ _ Hlook) as Hlt.
  assert (Ht : 0 ≤ moveTarget (clampIndex index (count s)) (count s) < count s).
  { apply moveTarget_range; [| apply clampIndex_range]; unfold count; lia. }
  unfold existing_child_post.
  set (t := moveTarget _ _) in *.
  case_decide as Hti.
  - rewrite insertChild_same_place by (fold t; lia).
    unfold relink; fields. done.
  - rewrite Hi in Hti.
    assert (Hc : children (final (insertChild index child s))
                 = arrays.move (children s) (Z.of_nat i) t).
    { rewrite insertChild_children; cbv zeta. fold t. rewrite Hi.
      by rewrite decide_True, decide_False by lia. }
    unfold count in *. rewrite Hc, Hi. split_and!.
    + apply move_lookup; [lia | done |]. by rewrite Nat2Z.id.
    + apply (move_delete _ _ _ child); [lia | done |]. by rewrite Nat2Z.id.
    + by rewrite move_length.
    + rewrite insertChild_methods; cbv zeta. fold t. rewrite Hi.
      unfold count. by rewrite decide_True, decide_False by lia.
Qed.

(** C2, amended: for a child that is not in the sequence, [insertChild]
    takes the requested index through [index | 0] and clamps that into
    [0, count]; the child gets the container of the layout as parent, is
    put into the sequence at exactly that position (its index afterwards),
    the count grows by one, and of the hooks exactly [attachChild] is
    entered, exactly when the layout has a container. *)
Theorem insertChild_new_child s index child :
  child ∉ children s →
  new_child_post s child (clampIndex index (count s))
    (final (insertChild index child s)).
Proof.
  intros Hnew.
  pose proof (indexOf_absent _ _ Hnew) as Hi.
  assert (Hj : 0 ≤ clampIndex index (count s) ≤ count s).
  { apply clampIndex_range. unfold count; lia. }
  set (j := clampIndex index (count s)) in *.
  assert (Hc : children (final (insertChild index child s))
               = take (Z.to_nat j) (children s)
                 ++ child :: drop (Z.to_nat j) (children s)).
  { rewrite insertChild_children; cbv zeta. rewrite Hi.
    rewrite decide_False by lia. by apply insert_clamped. }
  unfold new_child_post. split_and!.
  - done.
  - rewrite Hc, indexOf_app_fresh.
    + rewrite length_take. unfold count in Hj. lia.
    + intros H. apply Hnew.
      rewrite <- (take_drop (Z.to_nat j) (children s)).
      apply elem_of_app. by left.
  - unfold count in *. rewrite Hc, length_app; simpl.
    rewrite length_take, length_drop. lia.
  - apply insertChild_widgetParent.
  - rewrite insertChild_methods; cbv zeta. rewrite Hi.
    rewrite decide_False by lia. done.
Qed.

Lemma insertChild_existing_child_witness :
  existing_child_post twoChildren widgetB
    (Js.indexOf (children twoChildren) widgetB)
    (moveTarget (clampIndex (int 0) (count twoChildren)) (count twoChildren))
    (final (insertChild (int 0) widgetB twoChildren)).
Proof.
  apply (insertChild_existing_child twoChildren (int 0) widgetB).
  compute_done.
Defined.

(** C1 as stated fails at index 2^31: clamping 2^31 itself into [0, 2]
    gives 2, hence target 1, the place where B already is, so nothing
    should happen; the code converts 2^31 to -2^31 first and moves B to the
    front. *)
Lemma insertChild_existing_plain_clamp_counterexample :
  ¬ existing_child_post twoChildren widgetB
      (Js.indexOf (children twoChildren) widgetB)
      (moveTarget (clampPlain (2 ^ 31) (count twoChildren)) (count twoChildren))
      (final (insertChild (int (2 ^ 31)) widgetB twoChildren)).
Proof. vm_compute. intros [H _]. discriminate H. Qed.

Lemma insertChild_new_child_witness :
  new_child_post oneChild widgetB (clampIndex (int 5) (count oneChild))
    (final (insertChild (int 5) widgetB oneChild)).
Proof.
  apply (insertChild_new_child oneChild (int 5) widgetB).
  compute_done.
Defined.

(** C2 as stated fails at index 2^31: min(max(0, 2^31), 1) is 1, but the
    new child ends at index 0. *)
Lemma insertChild_new_plain_clamp_counterexample :
  ¬ new_child_post oneChild widgetB (clampPlain (2 ^ 31) (count oneChild))
      (final (insertChild (int (2 ^ 31)) widgetB oneChild)).
Proof. vm_compute. intros [H _]. discriminate H. Qed.

(** ** The conversion of the index *)

Lemma clampIndex_upper_half z n :
  2 ^ 31 ≤ z < 2 ^ 32 → 0 ≤ n → clampIndex (int z) n = 0.
Proof.
  intros Hz Hn. unfold clampIndex.
  rewrite ToInt32_int, wrap32_upper by done. lia.
Qed.

Lemma insertChild_front s index child :
  clampIndex index (count s) = 0 →
  children (final (insertChild index child s)) !! 0%nat = Some child.
Proof.
  intros Hj. rewrite insertChild_children; cbv zeta. rewrite Hj.
  destruct (decide (child ∈ children s)) as [Hin | Hnew].
  - destruct (indexOf_present _ _ Hin) as (i & Hi & Hlook & _).
    pose proof (lookup_lt_Some _ _ _ Hlook) as Hlt.
    assert (Ht : moveTarget 0 (count s) = 0).
    { unfold moveTarget, count. case_decide; lia. }
    rewrite Ht, Hi. rewrite decide_True by lia.
    case_decide as Hi0.
    + by replace i with 0%nat in Hlook by lia.
    + apply (move_lookup _ _ 0 child); [lia | lia |]. by rewrite Nat2Z.id.
  - rewrite (indexOf_absent _ _ Hnew). rewrite decide_False by lia.
    by rewrite insert_clamped by lia.
Qed.

(** C3, amended: [insertChild] works with [index | 0], the conversion of
    the index to a signed 32-bit integer: a fractional index is rounded
    toward zero (and wrapped); an index from 2^31 up to 2^32 - 1 becomes
    the negative [index - 2^32] and is clamped to 0; so
    [insertChild(2^31, child)] puts the child at the front of the
    sequence. *)
Theorem insertChild_index_conversion :
  (∀ index, Js.bitor index (int 0) = Js.ToInt32 index)
  ∧ (∀ q, Js.ToInt32 (Num q)
          = Js.wrap32 (if Qle_bool 0 q then Qfloor q else Qceiling q))
  ∧ (∀ z n, 2 ^ 31 ≤ z < 2 ^ 32 → 0 ≤ n →
       Js.ToInt32 (int z) = z - 2 ^ 32 ∧ Js.ToInt32 (int z) < 0
       ∧ clampIndex (int z) n = 0)
  ∧ (∀ s child,
       children (final (insertChild (int (2 ^ 31)) child s)) !! 0%nat
       = Some child).
Proof.
  split_and!.
  - apply bitor_zero.
  - intros q. simpl. f_equal. destruct (Qle_bool 0 q) eqn:Hq.
    + apply trunc_floor. by apply Qle_bool_iff.
    + apply trunc_ceiling. apply Qlt_le_weak, Qnot_le_lt.
      intros H. apply Qle_bool_iff in H. congruence.
  - intros z n Hz Hn. rewrite ToInt32_int, wrap32_upper by done.
    split_and!; [done | lia |]. by apply clampIndex_upper_half.
  - intros s child. apply insertChild_front.
    apply clampIndex_upper_half; [| unfold count; lia].
    split; [lia | reflexivity].
Qed.

Lemma insertChild_index_conversion_witness :
  (Js.ToInt32 (int (2 ^ 31 + 5)) = 2 ^ 31 + 5 - 2 ^ 32
   ∧ Js.ToInt32 (int (2 ^ 31 + 5)) < 0
   ∧ clampIndex (int (2 ^ 31 + 5)) 3 = 0)
  ∧ children (final (insertChild (int (2 ^ 31)) widgetB twoChildren))
      !! 0%nat = Some widgetB.
Proof.
  destruct insertChild_index_conversion as (_ & _ & Hupper & Hfront).
  split.
  - apply (Hupper (2 ^ 31 + 5) 3); [split |]; vm_compute; congruence.
  - apply (Hfront twoChildren widgetB).
Defined.

(** C3 as stated fails at index 2^32 + 1, which is above 2^31: it wraps to
    1, not to a negative value, and a new child then lands at index 1 of a
    one-child layout, not at the front. *)
Lemma high_index_not_negative_counterexample :
  2 ^ 31 ≤ 2 ^ 32 + 1
  ∧ ¬ (Js.bitor (int (2 ^ 32 + 1)) (int 0) < 0)
  ∧ clampIndex (int (2 ^ 32 + 1)) (count oneChild) ≠ 0
  ∧ children (final (insertChild (int (2 ^ 32 + 1)) widgetB oneChild))
    = [widgetA; widgetB].
Proof.
  split_and!.
  - vm_compute. congruence.
  - vm_compute. intros H. discriminate H.
  - vm_compute. intros H. discriminate H.
  - vm_compute. reflexivity.
Qed.

(** ** Looking up and removing *)

(** C10: [childAt] never throws and leaves the state as it is; an integer
    index within [0, count) yields the child at that position, and every
    index below 0 or at or above the count yields [undefined]. *)
Theorem childAt_lookup s :
  (∀ index, ∃ r, childAt index s = Ret r s)
  ∧ (∀ q (k : nat), (q == inject_Z (Z.of_nat k))%Q → 0 ≤ Z.of_nat k < count s →
       ∃ c, children s !! k = Some c ∧ childAt (Num q) s = Ret (Some c) s)
  ∧ (∀ q, (q < 0)%Q ∨ (inject_Z (count s) <= q)%Q →
       childAt (Num q) s = Ret None s)
  ∧ (∀ q, Js.is_integer q = false → childAt (Num q) s = Ret None s)
  ∧ childAt NaN s = Ret None s
  ∧ (∀ b, childAt (Infinity b) s = Ret None s).
Proof.
  split_and!; [| | | | done | done].
  - intros index. by eexists.
  - intros q k Hq Hk. unfold count in Hk.
    destruct (lookup_lt_is_Some_2 (children s) k) as [c Hc]; [lia |].
    exists c. split; [done |].
    unfold childAt, gets. by rewrite (get_integer _ q k), Hc.
  - intros q [Hq | Hq]; unfold childAt, gets; f_equal.
    + by apply get_negative.
    + by apply get_beyond.
  - intros q Hq. unfold childAt, gets, Js.get. by rewrite Hq.
Qed.

Lemma childAt_lookup_witness :
  (∃ c, children twoChildren !! 1%nat = Some c
        ∧ childAt (int 1) twoChildren = Ret (Some c) twoChildren)
  ∧ childAt (int 2) twoChildren = Ret None twoChildren.
Proof.
  destruct (childAt_lookup twoChildren) as (_ & Hin & Hout & _).
  split.
  - apply (Hin (inject_Z 1) 1%nat); vm_compute; [reflexivity | split; congruence].
  - apply (Hout (inject_Z 2)). right. vm_compute. congruence.
Defined.

Lemma onChildRemoved_noop s child :
  child ∉ children s → onChildRemoved child s = Ret tt s.
Proof.
  intros Habsent.
  rewrite onChildRemoved_eq, remove_absent by done.
  rewrite decide_False by lia. by rewrite with_children_id.
Qed.

(** C9: a 'child-removed' notification for a child that is not in the
    sequence changes nothing at all: the sequence and the count stay as
    they are, [detachChild] is not entered, no message is sent and no node
    is removed. *)
Theorem onChildRemoved_absent s child :
  child ∉ children s →
  onChildRemoved child s = Ret tt s
  ∧ count (final (onChildRemoved child s)) = count s
  ∧ methods (final (onChildRemoved child s)) = methods s
  ∧ messages (final (onChildRemoved child s)) = messages s
  ∧ childNodes (final (onChildRemoved child s)) = childNodes s.
Proof.
  intros Habsent. by rewrite onChildRemoved_noop.
Qed.

Lemma onChildRemoved_absent_witness :
  onChildRemoved widgetC twoChildren = Ret tt twoChildren
  ∧ count (final (onChildRemoved widgetC twoChildren)) = count twoChildren
  ∧ methods (final (onChildRemoved widgetC twoChildren)) = methods twoChildren
  ∧ messages (final (onChildRemoved widgetC twoChildren)) = messages twoChildren
  ∧ childNodes (final (onChildRemoved widgetC twoChildren))
    = childNodes twoChildren.
Proof.
  apply (onChildRemoved_absent twoChildren widgetC).
  compute_done.
Defined.

(** ** The notifications of the hooks *)

Lemma insertBefore_placed nodes node (ref : option Widget) :
  match ref with Some r => NodeOf r ∈ nodes | None => True end →
  is_Some (Dom.insertBefore nodes node (NodeOf <$> ref)).
Proof.
  destruct ref as [r|]; simpl; intros H; [| by eexists].
  rewrite decide_True by done. case_decide; by eexists.
Qed.

Lemma insertBefore_missing nodes node (r : Widget) :
  NodeOf r ∉ nodes → Dom.insertBefore nodes node (Some (NodeOf r)) = None.
Proof. intros H. simpl. by rewrite decide_False. Qed.

(** What the hooks send where they work. On a layout with a container,
    when the node placement of the hook goes through (the reference node is
    a child node of the container, or there is no reference),
    [attachChild] returns having sent exactly
    'after-attach' to the child if the container is live and nothing
    otherwise; [moveChild] returns having sent exactly 'before-detach' then
    'after-attach' to the child if the container is live and nothing
    otherwise; [detachChild] sends exactly 'before-detach' to the child if
    the container is live and nothing otherwise. No other widget is sent
    anything. *)
Theorem hooks_notification_contract s p index child :
  parent s = Some p →
  (refPlaced index s →
   ∃ s', attachChild index child s = Ret tt s'
         ∧ messages s' = messages s ++
             if isAttached s then [(child, MsgAfterAttach)] else [])
  ∧ (∀ fromIndex, refPlaced index s →
     ∃ s', moveChild fromIndex index child s = Ret tt s'
           ∧ messages s' = messages s ++
               if isAttached s
               then [(child, MsgBeforeDetach); (child, MsgAfterAttach)]
               else [])
  ∧ messages (final (detachChild index child s)) = messages s ++
      if isAttached s then [(child, MsgBeforeDetach)] else [].
Proof.
  intros Hp. split_and!.
  - intros Href. apply insertBefore_placed with (node := NodeOf child)
      in Href as [nodes Hnodes].
    rewrite attachChild_eq; cbv zeta. rewrite Hp, Hnodes.
    eexists; split; [done |].
    destruct (isAttached s); unfold told, entered; fields;
      by rewrite ?app_nil_r.
  - intros fromIndex Href.
    apply insertBefore_placed with (node := NodeOf child)
      in Href as [nodes Hnodes].
    rewrite moveChild_eq; cbv zeta. rewrite Hp, Hnodes.
    eexists; split; [done |].
    destruct (isAttached s); unfold told, entered; fields;
      by rewrite <- ?app_assoc, ?app_nil_r.
  - rewrite detachChild_eq; cbv zeta. rewrite Hp.
    destruct (Dom.removeChild _ _), (isAttached s);
      unfold told, entered; fields; by rewrite ?app_nil_r.
Qed.

Lemma hooks_notification_contract_witness :
  (∃ s', attachChild 2 widgetC twoChildren = Ret tt s'
         ∧ messages s' = messages twoChildren ++
             if isAttached twoChildren
             then [(widgetC, MsgAfterAttach)] else [])
  ∧ (∃ s', moveChild 0 1 widgetA twoChildren = Ret tt s'
           ∧ messages s' = messages twoChildren ++
               if isAttached twoChildren
               then [(widgetA, MsgBeforeDetach); (widgetA, MsgAfterAttach)]
               else []).
Proof.
  split.
  - destruct (hooks_notification_contract twoChildren panel 2 widgetC)
      as (Hattach & _ & _).
    + vm_compute. reflexivity.
    + apply Hattach. vm_compute. exact I.
  - destruct (hooks_notification_contract twoChildren panel 1 widgetA)
      as (_ & Hmove & _).
    + vm_compute. reflexivity.
    + apply Hmove. vm_compute. exact I.
Defined.

(** When the reference is not a child node of the container, the DOM
    raises NotFoundError and [attachChild] is left before any message is
    sent, live container or not. *)
Lemma attachChild_unplaced s p index child r :
  parent s = Some p →
  Js.get (children s) (int (index + 1)) = Some r →
  NodeOf r ∉ childNodes s →
  ∃ s', attachChild index child s = Throw NotFoundError s'
        ∧ messages s' = messages s ∧ childNodes s' = childNodes s.
Proof.
  intros Hp Hr Hout. rewrite attachChild_eq; cbv zeta.
  rewrite Hp, Hr. cbn [fmap option_fmap option_map].
  rewrite insertBefore_missing by done.
  by eexists.
Qed.

(** ** Removal and disposal *)

Lemma remove_snd_absent (a : list Widget) v :
  v ∉ a → (arrays.remove a v).2 = a.
Proof. intros H. by rewrite remove_absent. Qed.

Lemma onChildRemoved_children child s :
  children (final (onChildRemoved child s))
  = (arrays.remove (children s) child).2.
Proof.
  rewrite onChildRemoved_eq.
  destruct (arrays.remove _ _) as [i a]; simpl.
  case_decide; [| done].
  by destruct (detachChild_frame i child (with_children a s)) as [-> _].
Qed.

Lemma remove_sublist (a : list Widget) v : (arrays.remove a v).2 `sublist_of` a.
Proof.
  unfold arrays.remove. destruct (list_find _ a) as [[i x]|]; simpl; [| done].
  apply sublist_delete.
Qed.

Lemma remove_gone (a : list Widget) v : NoDup a → v ∉ (arrays.remove a v).2.
Proof.
  intros Hnd. destruct (decide (v ∈ a)) as [Hin | Hout].
  - destruct (remove_present a v Hin) as (i & -> & Hi).
    by apply (delete_NoDup a i v).
  - by rewrite remove_snd_absent.
Qed.

(** What [setParent] does to the layout when it is not re-entered. *)
Lemma setParent_children_sublist child value s :
  children (final (setParent child value s)) `sublist_of` children s.
Proof.
  rewrite setParent_eq. case_decide; [done |].
  destruct (widgetParent s !! child); [| done].
  destruct (negb _ && _); [| done].
  pose proof (onChildRemoved_children child s) as Hc.
  destruct (onChildRemoved child s); simpl in *;
    unfold relink; fields; rewrite Hc; apply remove_sublist.
Qed.

Lemma disposeWidget_children_sublist w s :
  children (final (disposeWidget w s)) `sublist_of` children s.
Proof.
  unfold disposeWidget; munfold; fields.
  case_bool_decide; [done |]. fields.
  destruct (widgetParent s !! w); [| done].
  match goal with
  | |- context [setParent ?c ?v ?s0] =>
      apply (setParent_children_sublist c v s0)
  end.
Qed.

Lemma pop_sublist (a : list Widget) : (Js.pop a).2 `sublist_of` a.
Proof. simpl. apply sublist_take. Qed.

Lemma dispose_loop_children_sublist fuel s :
  children (final (dispose_loop fuel s)) `sublist_of` children s.
Proof.
  revert s. induction fuel as [| fuel IH]; intros s; simpl; munfold.
  - by case_decide.
  - case_decide; [| done].
    pose proof (pop_sublist (children s)) as Hpop.
    destruct (Js.pop (children s)) as [[c|] a]; simpl in Hpop; [| by fields].
    pose proof (disposeWidget_children_sublist c (with_children a s)) as Hd.
    destruct (disposeWidget c (with_children a s)) as [[] s1 | e s1];
      fields.
    + etrans; [apply IH |]. by etrans.
    + by etrans.
Qed.

Lemma dispose_children_sublist s :
  children (final (dispose s)) `sublist_of` children s.
Proof.
  unfold dispose. unfold bind at 1. unfold gets at 1.
  unfold bind.
  pose proof (dispose_loop_children_sublist (length (children s)) s) as H.
  destruct (dispose_loop _ s); unfold superDispose, modify; fields; done.
Qed.

Lemma initialize_loop_children fuel i s :
  children (final (initialize_loop fuel i s)) = children s.
Proof.
  revert i s. induction fuel as [| fuel IH]; intros i s; simpl; munfold.
  - by case_decide.
  - case_decide; [| done].
    destruct (Js.get (children s) (int i)) as [c|]; [| done].
    rewrite setParent_own.
    pose proof (attachChild_frame i c (relink c (parent s) s)) as [Hc _].
    destruct (attachChild i c _) as [[] s1 | e s1]; fields.
    + by rewrite IH.
    + done.
Qed.

Lemma install_children p live s :
  children (final (install p live s)) = children s.
Proof.
  unfold install, initialize; munfold.
  destruct (parent s); [by case_decide |].
  fields. by rewrite initialize_loop_children.
Qed.

Lemma addChild_eq child s :
  addChild child s = insertChild (int (count s)) child s.
Proof. done. Qed.

Lemma insertChild_NoDup index child s :
  NoDup (children s) → NoDup (children (final (insertChild index child s))).
Proof.
  intros Hnd. rewrite insertChild_children; cbv zeta.
  repeat case_decide; [done | by apply move_NoDup |].
  apply insert_NoDup; [done |]. apply indexOf_minus_one. lia.
Qed.

Lemma perform_NoDup op s :
  NoDup (children s) → NoDup (children (final (perform op s))).
Proof.
  intros Hnd. destruct op as [index child | child | child | | p live]; simpl.
  - by apply insertChild_NoDup.
  - rewrite addChild_eq. by apply insertChild_NoDup.
  - rewrite onChildRemoved_children.
    eapply sublist_NoDup; [done | apply remove_sublist].
  - eapply sublist_NoDup; [done | apply dispose_children_sublist].
  - by rewrite install_children.
Qed.

Lemma reachable_NoDup s : reachable s → NoDup (children s).
Proof.
  induction 1 as [s Hnew | s op _ IH].
  - rewrite Hnew. constructor.
  - by apply perform_NoDup.
Qed.

(** C7: in every state reached through the operations of the layout
    (inserting, appending, the removal notification, disposing, being
    installed) each child occurs at most once in the sequence; and
    [insertChild] keeps it so from any such state, because a child found
    by [indexOf] is moved and only a child not found is inserted. *)
Theorem children_unique :
  (∀ s, reachable s → NoDup (children s))
  ∧ (∀ s index child, NoDup (children s) →
       NoDup (children (final (insertChild index child s)))
       ∧ (child ∈ children s →
          length (children (final (insertChild index child s)))
          = length (children s))).
Proof.
  split.
  - apply reachable_NoDup.
  - intros s index child Hnd. split; [by apply insertChild_NoDup |].
    intros Hin. rewrite insertChild_children; cbv zeta.
    destruct (indexOf_present _ _ Hin) as (i & Hi & _).
    rewrite decide_True by lia.
    case_decide; [done | apply move_length].
Qed.

Lemma children_unique_witness :
  NoDup (children twoChildren)
  ∧ NoDup (children (final (insertChild (int 0) widgetB twoChildren)))
  ∧ length (children (final (insertChild (int 0) widgetB twoChildren)))
    = length (children twoChildren).
Proof.
  destruct children_unique as [Hreach Hins].
  assert (Hr : reachable twoChildren).
  { unfold twoChildren. apply reachable_step.
    unfold oneChild. apply reachable_step.
    unfold livePanel. apply reachable_step.
    apply reachable_new. reflexivity. }
  split; [by apply Hreach |].
  destruct (Hins twoChildren (int 0) widgetB (Hreach _ Hr)) as [H1 H2].
  split; [done |]. apply H2. compute_done.
Defined.

(** ** Disposing the layout *)

Lemma pop_snoc (a : list Widget) c : Js.pop (a ++ [c]) = (Some c, a).
Proof.
  unfold Js.pop. rewrite last_snoc, length_app; simpl.
  replace (length a + 1 - 1)%nat with (length a) by lia.
  by rewrite take_app_length.
Qed.

(** Disposing a child that has just been popped: when the child has the
    container as parent, its removal notification comes back to the layout,
    which no longer has the child and does nothing. *)
Lemma disposeWidget_popped c s :
  c ∉ children s →
  ∃ s', disposeWidget c s = Ret tt s'
        ∧ children s' = children s
        ∧ disposals s' = disposals s ++ [c]
        ∧ c ∈ widgetDisposed s'
        ∧ widgetDisposed s ⊆ widgetDisposed s'
        ∧ undisturbed s s'.
Proof.
  intros Hc. unfold disposeWidget, undisturbed; munfold; fields.
  case_bool_decide as Hd.
  { eexists; split; [done |]. fields. by split_and!. }
  fields. destruct (widgetParent s !! c) as [p|] eqn:Hp.
  2:{ eexists; split; [done |]. fields. split_and!; try done; set_solver. }
  rewrite setParent_eq; fields. rewrite Hp.
  rewrite decide_False by done.
  destruct (negb _ && _).
  - rewrite onChildRemoved_noop by done.
    eexists; split; [done |]. unfold relink; fields.
    split_and!; try done; set_solver.
  - eexists; split; [done |]. unfold relink; fields.
    split_and!; try done; set_solver.
Qed.

Lemma dispose_loop_spec fuel : ∀ s,
  NoDup (children s) → (length (children s) ≤ fuel)%nat →
  ∃ s', dispose_loop fuel s = Ret tt s'
        ∧ children s' = []
        ∧ disposals s' = disposals s ++ reverse (children s)
        ∧ (∀ c, c ∈ children s → c ∈ widgetDisposed s')
        ∧ widgetDisposed s ⊆ widgetDisposed s'
        ∧ undisturbed s s'.
Proof.
  induction fuel as [| fuel IH]; intros s Hnd Hlen.
  - destruct (children s) eqn:Hch; [| simpl in Hlen; lia].
    exists s. simpl; munfold. rewrite Hch; simpl.
    split_and!; try done.
    + by rewrite app_nil_r.
    + set_solver.
  - destruct (decide (children s = [])) as [Hnil | Hne].
    { exists s. simpl; munfold. rewrite Hnil; simpl.
      split_and!; try done.
      + by rewrite app_nil_r.
      + set_solver. }
    destruct (exists_last Hne) as (a & (c & Hch)).
    assert (Hpos : (0 < length (children s))%nat).
    { rewrite Hch, length_app; simpl. lia. }
    rewrite Hch in Hnd. apply NoDup_app in Hnd as (Hnda & Hsep & _).
    assert (Hca : c ∉ a). { intros Hin. apply (Hsep c Hin). set_solver. }
    destruct (disposeWidget_popped c (with_children a s)) as
      (s1 & Hrun & Hch1 & Hdisp1 & Hin1 & Hsub1 & Hund1); [done |].
    fields.
    destruct (IH s1) as (s2 & Hrun2 & Hch2 & Hdisp2 & Hin2 & Hsub2 & Hund2).
    { by rewrite Hch1. }
    { rewrite Hch1. rewrite Hch, length_app in Hlen; simpl in Hlen. lia. }
    exists s2. split_and!.
    + simpl; munfold. rewrite decide_True by done.
      rewrite Hch, pop_snoc. by rewrite Hrun.
    + done.
    + rewrite Hdisp2, Hdisp1, Hch1, Hch, reverse_app; simpl.
      by rewrite <- app_assoc.
    + intros x Hx. rewrite Hch in Hx.
      apply elem_of_app in Hx as [Hx | Hx].
      * apply Hin2. by rewrite Hch1.
      * apply list_elem_of_singleton in Hx as ->. by apply Hsub2.
    + set_solver.
    + unfold undisturbed in *. fields.
      destruct Hund1 as (-> & -> & -> & -> & ->) in Hund2. done.
Qed.

Lemma filter_eq_absent (l : list Widget) c :
  c ∉ l → filter (λ x, x = c) l = [].
Proof.
  induction l as [| x l IH]; [done |].
  intros Hc. rewrite filter_cons. case_decide as Hx.
  - exfalso. apply Hc. set_solver.
  - apply IH. set_solver.
Qed.

Lemma filter_eq_once (l : list Widget) c :
  NoDup l → c ∈ l → length (filter (λ x, x = c) l) = 1%nat.
Proof.
  induction 1 as [| x l Hx Hnd IH]; [set_solver |].
  rewrite filter_cons. intros Hin. case_decide as Hxc.
  - subst x. simpl. by rewrite filter_eq_absent.
  - apply IH. by apply elem_of_cons in Hin as [-> | ?].
Qed.

(** C5: from a state in which the children are distinct, [dispose()]
    returns: it pops the children from the end of the sequence until none
    is left and calls [dispose()] on each, so that afterwards the count is
    0, every child that was in the sequence is disposed, and [dispose()] was
    called on it exactly once (the calls are the old sequence, last child
    first). This holds whether or not the disposal of a child sends its
    removal notification back to the layout. *)
Theorem dispose_disposes_every_child s :
  NoDup (children s) →
  ∃ s', dispose s = Ret tt s'
        ∧ count s' = 0
        ∧ disposals s' = disposals s ++ reverse (children s)
        ∧ ∀ c, c ∈ children s →
            c ∈ widgetDisposed s'
            ∧ length (filter (λ x, x = c)
                        (drop (length (disposals s)) (disposals s'))) = 1%nat.
Proof.
  intros Hnd.
  destruct (dispose_loop_spec (length (children s)) s Hnd)
    as (s1 & Hrun & Hch & Hdisp & Hin & _); [done |].
  exists (with_layoutDisposed true (with_parent None s1)). split_and!.
  - unfold dispose; munfold. by rewrite Hrun.
  - unfold count; fields. by rewrite Hch.
  - fields. done.
  - intros c Hc. fields. split; [by apply Hin |].
    rewrite Hdisp, drop_app_length.
    apply filter_eq_once; [by rewrite reverse_Permutation |].
    by apply elem_of_reverse.
Qed.

Lemma dispose_disposes_every_child_witness :
  ∃ s', dispose twoChildren = Ret tt s'
        ∧ count s' = 0
        ∧ disposals s' = disposals twoChildren ++ reverse (children twoChildren)
        ∧ ∀ c, c ∈ children twoChildren →
            c ∈ widgetDisposed s'
            ∧ length (filter (λ x, x = c)
                        (drop (length (disposals twoChildren)) (disposals s')))
              = 1%nat.
Proof.
  apply (dispose_disposes_every_child twoChildren). compute_done.
Defined.

(** ** Nodes stay in the container while their child stays in the layout *)

Lemma without_elem node l x : x ∈ Dom.without node l ↔ x ≠ node ∧ x ∈ l.
Proof. unfold Dom.without. by rewrite list_elem_of_filter. Qed.

Lemma place_before_elem node ref l x :
  x ∈ Dom.place_before node ref l ↔ x = node ∨ x ∈ l.
Proof.
  induction l as [| y l IH]; simpl.
  - rewrite list_elem_of_singleton, elem_of_nil. tauto.
  - case_decide.
    + rewrite (elem_of_cons _ x node). tauto.
    + rewrite (elem_of_cons _ x y), IH, (elem_of_cons l x y). tauto.
Qed.

Lemma insertBefore_keeps nodes node ref nodes' x :
  Dom.insertBefore nodes node ref = Some nodes' → x ∈ nodes → x ∈ nodes'.
Proof.
  unfold Dom.insertBefore. intros H Hx.
  destruct ref as [r|].
  - case_decide; [| done]. case_decide; simplify_eq; [done |].
    apply place_before_elem.
    destruct (decide (x = node)); [by left | right].
    by apply without_elem.
  - simplify_eq. apply elem_of_app.
    destruct (decide (x = node)) as [-> | Hne]; [right; set_solver | left].
    by apply without_elem.
Qed.

Lemma removeChild_keeps nodes node nodes' x :
  Dom.removeChild nodes node = Some nodes' → x ≠ node → x ∈ nodes → x ∈ nodes'.
Proof.
  unfold Dom.removeChild. case_decide; [| done].
  intros ? ? ?; simplify_eq. by apply without_elem.
Qed.

Lemma attachChild_keeps index child s x :
  x ∈ childNodes s → x ∈ childNodes (final (attachChild index child s)).
Proof.
  intros Hx. rewrite attachChild_eq; cbv zeta.
  destruct (parent s); [| done].
  destruct (Dom.insertBefore _ _ _) eqn:Hd; [| done].
  destruct (isAttached s); fields; by eapply insertBefore_keeps.
Qed.

Lemma moveChild_keeps fromIndex toIndex child s x :
  x ∈ childNodes s →
  x ∈ childNodes (final (moveChild fromIndex toIndex child s)).
Proof.
  intros Hx. rewrite moveChild_eq; cbv zeta.
  destruct (parent s); [| done].
  destruct (Dom.insertBefore _ _ _) eqn:Hd, (isAttached s); fields;
    try done; by eapply insertBefore_keeps.
Qed.

Lemma detachChild_keeps index child s x :
  x ≠ NodeOf child → x ∈ childNodes s →
  x ∈ childNodes (final (detachChild index child s)).
Proof.
  intros Hne Hx. rewrite detachChild_eq; cbv zeta.
  destruct (parent s); [| done].
  destruct (Dom.removeChild _ _) eqn:Hd, (isAttached s); fields;
    try done; by eapply removeChild_keeps.
Qed.

Lemma insertChild_keeps index child s x :
  x ∈ childNodes s → x ∈ childNodes (final (insertChild index child s)).
Proof.
  intros Hx. rewrite insertChild_eq; cbv zeta.
  repeat case_decide; destruct (parent s); fields; try done.
  - by apply moveChild_keeps.
  - by apply attachChild_keeps.
Qed.

Lemma insertChild_parent index child s :
  parent (final (insertChild index child s)) = parent s.
Proof.
  rewrite insertChild_eq; cbv zeta.
  repeat case_decide; destruct (parent s) eqn:Hp; fields; try done.
  - match goal with
    | |- context [moveChild ?i ?t ?c ?s2] =>
        destruct (moveChild_frame i t c s2) as (_ & -> & _)
    end. done.
  - match goal with
    | |- context [attachChild ?t ?c ?s2] =>
        destruct (attachChild_frame t c s2) as (_ & -> & _)
    end. done.
Qed.

Lemma onChildRemoved_parent child s :
  parent (final (onChildRemoved child s)) = parent s.
Proof.
  rewrite onChildRemoved_eq.
  destruct (arrays.remove _ _) as [i a]. case_decide; [| done].
  by destruct (detachChild_frame i child (with_children a s)) as (_ & -> & _).
Qed.

Lemma onChildRemoved_keeps child s x :
  x ≠ NodeOf child → x ∈ childNodes s →
  x ∈ childNodes (final (onChildRemoved child s)).
Proof.
  intros Hne Hx. rewrite onChildRemoved_eq.
  destruct (arrays.remove _ _) as [i a]. case_decide; [| done].
  by apply detachChild_keeps.
Qed.

Lemma remove_fst (a : list Widget) v : (arrays.remove a v).1 = Js.indexOf a v.
Proof.
  unfold arrays.remove, Js.indexOf.
  by destruct (list_find _ a) as [[i x]|].
Qed.

Lemma onChildRemoved_methods child s :
  methods (final (onChildRemoved child s)) = methods s ++
    if decide (child ∈ children s)
    then [CallDetach (Js.indexOf (children s) child) child] else [].
Proof.
  rewrite onChildRemoved_eq.
  pose proof (remove_fst (children s) child) as Hfst.
  destruct (arrays.remove _ _) as [i a]; simpl in Hfst. subst i.
  destruct (decide (child ∈ children s)) as [Hin | Hin].
  - destruct (indexOf_present _ _ Hin) as (k & Hk & _).
    rewrite decide_True by lia. by rewrite detachChild_methods.
  - rewrite (indexOf_absent _ _ Hin). rewrite decide_False by lia.
    fields. by rewrite app_nil_r.
Qed.

Lemma install_installed p live s q :
  parent s = Some q → final (install p live s) = s.
Proof.
  intros Hq. unfold install; munfold. rewrite Hq. by case_decide.
Qed.

(** The hooks entered by [initialize()] are all [attachChild]. *)
Lemma initialize_loop_methods fuel : ∀ i s,
  ∃ new, methods (final (initialize_loop fuel i s)) = methods s ++ new
         ∧ Forall (λ c, ∃ k w, c = CallAttach k w) new.
Proof.
  induction fuel as [| fuel IH]; intros i s; simpl; munfold.
  - exists []. rewrite app_nil_r. by case_decide.
  - case_decide; [| exists []; by rewrite app_nil_r].
    destruct (Js.get (children s) (int i)) as [c|];
      [| exists []; by rewrite app_nil_r].
    rewrite setParent_own.
    pose proof (attachChild_methods i c (relink c (parent s) s)) as Hm.
    destruct (attachChild i c _) as [[] s1 | e s1]; fields.
    + destruct (IH (i + 1) s1) as (new & -> & Hnew).
      exists (CallAttach i c :: new). rewrite Hm. unfold relink; fields.
      rewrite <- app_assoc. split; [done |].
      constructor; [by eexists _, _ | done].
    + exists [CallAttach i c]. rewrite Hm. unfold relink; fields.
      split; [done |]. constructor; [by eexists _, _ | done].
Qed.

Lemma install_methods p live s :
  ∃ new, methods (final (install p live s)) = methods s ++ new
         ∧ Forall (λ c, ∃ k w, c = CallAttach k w) new.
Proof.
  unfold install, initialize; munfold.
  destruct (parent s).
  - exists []. rewrite app_nil_r. by case_decide.
  - fields.
    match goal with
    | |- context [initialize_loop ?f ?i ?s0] =>
        destruct (initialize_loop_methods f i s0) as (new & -> & Hnew)
    end.
    by exists new.
Qed.

(** ** The presence of a child *)

Lemma presence_attached s c :
  presence s c = PresentAttached →
  c ∈ children s ∧ is_Some (parent s) ∧ NodeOf c ∈ childNodes s.
Proof.
  unfold presence.
  destruct (decide (c ∈ children s)); [| done].
  destruct (decide (_ ∧ _)) as [[? ?] |]; done.
Qed.

Lemma presence_not_detached s c :
  (c ∈ children s → is_Some (parent s) ∧ NodeOf c ∈ childNodes s) →
  presence s c ≠ PresentDetached.
Proof.
  unfold presence. intros H.
  destruct (decide (c ∈ children s)) as [Hin |]; [| done].
  destruct (decide (_ ∧ _)) as [| Hn]; [done |].
  by destruct (Hn (H Hin)).
Qed.

Lemma dispose_returns s :
  NoDup (children s) →
  ∃ s1, dispose s = Ret tt (with_layoutDisposed true (with_parent None s1))
        ∧ children s1 = [] ∧ methods s1 = methods s.
Proof.
  intros Hnd.
  destruct (dispose_loop_spec (length (children s)) s Hnd)
    as (s1 & Hrun & Hch & _ & _ & _ & (_ & Hm & _)); [done |].
  exists s1. split_and!; [| done | done].
  unfold dispose; munfold. by rewrite Hrun.
Qed.

Lemma perform_keeps_attached op s c :
  NoDup (children s) →
  presence s c = PresentAttached →
  presence (final (perform op s)) c ≠ PresentDetached.
Proof.
  intros Hnd Hatt.
  apply presence_attached in Hatt as (Hin & Hpar & Hnode).
  apply presence_not_detached.
  destruct op as [index child | child | child | | p live]; simpl.
  - intros _. rewrite insertChild_parent. split; [done |].
    by apply insertChild_keeps.
  - intros _. rewrite addChild_eq, insertChild_parent. split; [done |].
    by apply insertChild_keeps.
  - rewrite onChildRemoved_children, onChildRemoved_parent. intros Hc.
    split; [done |]. apply onChildRemoved_keeps; [| done].
    intros [= ->]. by apply (remove_gone (children s) child).
  - destruct (dispose_returns s Hnd) as (s1 & -> & Hch & _).
    fields. rewrite Hch. set_solver.
  - destruct Hpar as [q Hq]. rewrite (install_installed p live s q Hq).
    intros _. split; [by eexists | done].
Qed.

Lemma perform_detach_calls op s :
  NoDup (children s) →
  ∃ new, methods (final (perform op s)) = methods s ++ new
         ∧ ∀ i w, CallDetach i w ∈ new →
             op = OpChildRemoved w ∧ w ∈ children s
             ∧ w ∉ children (final (perform op s)).
Proof.
  intros Hnd.
  destruct op as [index child | child | child | | p live]; simpl.
  - eexists. split; [apply insertChild_methods |]. cbv zeta.
    intros i w. destruct (parent s); repeat case_decide; intros Hw;
      repeat (apply elem_of_cons in Hw as [Hw | Hw]; [discriminate Hw |]);
      by apply elem_of_nil in Hw.
  - eexists. split; [rewrite addChild_eq; apply insertChild_methods |].
    cbv zeta.
    intros i w. destruct (parent s); repeat case_decide; intros Hw;
      repeat (apply elem_of_cons in Hw as [Hw | Hw]; [discriminate Hw |]);
      by apply elem_of_nil in Hw.
  - eexists. split; [apply onChildRemoved_methods |].
    intros i w. case_decide as Hin; [| set_solver].
    intros Hw. apply list_elem_of_singleton in Hw. simplify_eq.
    split_and!; [done | done |].
    rewrite onChildRemoved_children. by apply remove_gone.
  - destruct (dispose_returns s Hnd) as (s1 & -> & _ & Hm).
    exists []. fields. rewrite Hm, app_nil_r. split; [done | set_solver].
  - destruct (install_methods p live s) as (new & Hm & Hall).
    exists new. split; [done |].
    intros i w Hw. rewrite Forall_forall in Hall.
    by destruct (Hall _ Hw) as (k & x & ?).
Qed.

(** C8: in every state the layout reaches, no operation takes a child from
    present-attached (in the sequence, its node among the child nodes of the
    container) to present-detached: after the operation the child is either
    still present-attached or absent. And [detachChild] is entered only by
    the handler of 'child-removed', for the child named in the
    notification, which by then is no longer in the sequence. *)
Theorem attached_child_never_detached s op c :
  reachable s →
  (presence s c = PresentAttached →
   presence (final (perform op s)) c = PresentAttached
   ∨ presence (final (perform op s)) c = Absent)
  ∧ ∃ new, methods (final (perform op s)) = methods s ++ new
           ∧ ∀ i w, CallDetach i w ∈ new →
               op = OpChildRemoved w ∧ w ∈ children s
               ∧ w ∉ children (final (perform op s)).
Proof.
  intros Hreach. pose proof (reachable_NoDup s Hreach) as Hnd. split.
  - intros Hatt.
    pose proof (perform_keeps_attached op s c Hnd Hatt) as Hkeep.
    destruct (presence (final (perform op s)) c); auto. done.
  - by apply perform_detach_calls.
Qed.

Lemma twoChildren_reachable : reachable twoChildren.
Proof.
  unfold twoChildren. apply reachable_step.
  unfold oneChild. apply reachable_step.
  unfold livePanel. apply reachable_step.
  apply reachable_new. reflexivity.
Qed.

Lemma attached_child_never_detached_witness :
  presence (final (perform (OpChildRemoved widgetA) twoChildren)) widgetB
    = PresentAttached
  ∨ presence (final (perform (OpChildRemoved widgetA) twoChildren)) widgetB
    = Absent.
Proof.
  destruct (attached_child_never_detached twoChildren
              (OpChildRemoved widgetA) widgetB) as [Hkeep _].
  - exact twoChildren_reachable.
  - apply Hkeep. vm_compute. reflexivity.
Defined.

(** ** The order of the nodes in the container *)

Lemma without_fmap_fresh (l : list Widget) c :
  c ∉ l → Dom.without (NodeOf c) (NodeOf <$> l) = NodeOf <$> l.
Proof.
  intros Hc. unfold Dom.without.
  induction l as [| x l IH]; [done |].
  rewrite fmap_cons, filter_cons.
  destruct (decide (NodeOf x ≠ NodeOf c)) as [Hx | Hx].
  - f_equal. apply IH. set_solver.
  - exfalso. apply Hx. intros [= ->]. set_solver.
Qed.

Lemma without_fmap_middle (l1 l2 : list Widget) c :
  c ∉ l1 → c ∉ l2 →
  Dom.without (NodeOf c) (NodeOf <$> (l1 ++ c :: l2)) = NodeOf <$> (l1 ++ l2).
Proof.
  intros H1 H2.
  pose proof (without_fmap_fresh l1 c H1) as E1.
  pose proof (without_fmap_fresh l2 c H2) as E2.
  unfold Dom.without in *.
  rewrite !fmap_app, fmap_cons, filter_app, filter_cons.
  rewrite decide_False by (intros H; by apply H).
  by rewrite E1, E2.
Qed.

Lemma without_fmap_delete (l : list Widget) c (i : nat) :
  NoDup l → l !! i = Some c →
  Dom.without (NodeOf c) (NodeOf <$> l) = NodeOf <$> delete i l.
Proof.
  intros Hnd Hi.
  destruct (delete_NoDup l i c Hnd Hi) as [_ Hc].
  rewrite delete_take_drop in *.
  rewrite <- (take_drop_middle l i c Hi) at 1.
  apply without_fmap_middle; set_solver.
Qed.

Lemma place_before_fmap (l : list Widget) c r : ∀ t : nat,
  NoDup l → l !! t = Some r →
  Dom.place_before (NodeOf c) (NodeOf r) (NodeOf <$> l)
  = NodeOf <$> (take t l ++ c :: drop t l).
Proof.
  induction l as [| x l IH]; intros t Hnd Ht; [done |].
  apply NoDup_cons in Hnd as [Hx Hnd].
  destruct t as [| t]; simpl in *.
  - simplify_eq. by rewrite decide_True.
  - rewrite decide_False.
    + f_equal. by apply IH.
    + intros [= ->]. apply Hx. eapply list_elem_of_lookup_2; eauto.
Qed.

(** Placing the node of [c] the way the hooks do, when [c] has just been
    put at position [t] among the other children [rest]. *)
Lemma placement_synced (rest : list Widget) c (t : nat) nodes :
  NoDup rest → c ∉ rest → (t ≤ length rest)%nat →
  Dom.without (NodeOf c) nodes = NodeOf <$> rest →
  Dom.insertBefore nodes (NodeOf c)
    (NodeOf <$> (take t rest ++ c :: drop t rest) !! S t)
  = Some (NodeOf <$> (take t rest ++ c :: drop t rest)).
Proof.
  intros Hnd Hc Ht Hw.
  assert (Hlook : (take t rest ++ c :: drop t rest) !! S t = rest !! t).
  { rewrite lookup_app_r by (rewrite length_take; lia).
    rewrite length_take, Nat.min_l by lia.
    replace (S t - t)%nat with 1%nat by lia. simpl.
    by rewrite lookup_drop, Nat.add_0_r. }
  rewrite Hlook.
  destruct (rest !! t) as [r|] eqn:Hr; simpl.
  - assert (Hin : NodeOf r ∈ nodes).
    { assert (H : NodeOf r ∈ Dom.without (NodeOf c) nodes).
      { rewrite Hw. apply list_elem_of_fmap_2.
        eapply list_elem_of_lookup_2; eauto. }
      by apply without_elem in H as [_ ?]. }
    rewrite decide_True by done.
    rewrite decide_False.
    + by rewrite Hw, (place_before_fmap rest c r t).
    + intros [= ->]. apply Hc. eapply list_elem_of_lookup_2; eauto.
  - apply lookup_ge_None in Hr.
    assert (t = length rest) as -> by lia.
    by rewrite Hw, take_ge, drop_ge, fmap_app by lia.
Qed.

Lemma hook_index_lookup (l : list Widget) (t : Z) :
  0 ≤ t → Js.get l (int (t + 1)) = l !! S (Z.to_nat t).
Proof.
  intros Ht. rewrite get_int, decide_True by lia.
  f_equal. lia.
Qed.

(** On an installed layout whose nodes follow the sequence, [insertChild]
    returns and the nodes follow the new sequence. *)
Lemma insertChild_synced s index child p :
  parent s = Some p → NoDup (children s) → synced s →
  ∃ s', insertChild index child s = Ret tt s' ∧ synced s'.
Proof.
  unfold synced. intros Hp Hnd Hsync.
  rewrite insertChild_eq; cbv zeta. rewrite Hp.
  assert (Hj : 0 ≤ clampIndex index (count s) ≤ count s).
  { apply clampIndex_range. unfold count; lia. }
  set (j := clampIndex index (count s)) in *.
  destruct (decide (child ∈ children s)) as [Hin | Hnew].
  - destruct (indexOf_present _ _ Hin) as (i & Hi & Hlook & _).
    pose proof (lookup_lt_Some _ _ _ Hlook) as Hlt.
    assert (Ht : 0 ≤ moveTarget j (count s) < count s).
    { apply moveTarget_range; [unfold count; lia | done]. }
    set (t := moveTarget j (count s)) in *.
    rewrite Hi, decide_True by lia.
    case_decide as Hit.
    { eexists; split; [done |]. unfold relink; fields. done. }
    destruct (delete_NoDup _ i child Hnd Hlook) as [Hnd' Hc'].
    assert (Hmv : arrays.move (children s) (Z.of_nat i) t
                  = take (Z.to_nat t) (delete i (children s))
                    ++ child :: drop (Z.to_nat t) (delete i (children s))).
    { rewrite (move_in_range _ _ _ child); rewrite ?Nat2Z.id; try done; lia. }
    rewrite moveChild_eq; cbv zeta. unfold relink; fields.
    rewrite Hp. rewrite hook_index_lookup by lia. rewrite Hmv.
    rewrite (placement_synced (delete i (children s))); [| done | done | |].
    + eexists; split; [done |].
      destruct (isAttached s); unfold told, entered; fields;
        by rewrite ?Hmv.
    + rewrite length_delete by done. unfold count in Ht. lia.
    + rewrite Hsync. by apply without_fmap_delete.
  - rewrite (indexOf_absent _ _ Hnew), decide_False by lia.
    rewrite attachChild_eq; cbv zeta. unfold relink; fields.
    rewrite Hp. rewrite hook_index_lookup by lia.
    unfold count in Hj. rewrite insert_clamped by lia.
    rewrite (placement_synced (children s)); [| done | done | lia |].
    + eexists; split; [done |].
      destruct (isAttached s); unfold told, entered; fields;
        by rewrite ?insert_clamped.
    + rewrite Hsync. by apply without_fmap_fresh.
Qed.

(** Likewise for the removal notification. *)
Lemma onChildRemoved_synced s child p :
  parent s = Some p → NoDup (children s) → synced s →
  ∃ s', onChildRemoved child s = Ret tt s' ∧ synced s'.
Proof.
  unfold synced. intros Hp Hnd Hsync.
  destruct (decide (child ∈ children s)) as [Hin | Hout].
  2:{ exists s. split; [by apply onChildRemoved_noop | done]. }
  rewrite onChildRemoved_eq.
  destruct (remove_present _ _ Hin) as (i & -> & Hi).
  rewrite decide_True by lia.
  rewrite detachChild_eq; cbv zeta; fields. rewrite Hp.
  unfold Dom.removeChild. rewrite decide_True.
  - eexists; split; [done |].
    destruct (isAttached s); unfold told, entered; fields;
      rewrite Hsync; by apply without_fmap_delete.
  - rewrite Hsync. apply list_elem_of_fmap_2.
    eapply list_elem_of_lookup_2; eauto.
Qed.

(** The scenario of the specification on a layout that has its container:
    appending B, C, A gives the node order B, C, A. *)
Lemma append_to_installed_layout :
  let s := final ((addChild widgetB >> addChild widgetC >> addChild widgetA)
                    livePanel) in
  children s = [widgetB; widgetC; widgetA]
  ∧ childNodes s = [NodeOf widgetB; NodeOf widgetC; NodeOf widgetA].
Proof. vm_compute. done. Qed.

(** Installing a layout that already holds two or more children: the first
    [attachChild] names as reference the node of the second child, which
    is not in the container yet, and the DOM raises NotFoundError. *)
Lemma install_pending_throws s p live c0 c1 rest :
  parent s = None → children s = c0 :: c1 :: rest →
  ∃ s', install p live s = Throw NotFoundError s'
        ∧ children s' = children s ∧ childNodes s' = []
        ∧ messages s' = messages s.
Proof.
  intros Hp Hch. unfold install, initialize.
  unfold bind at 1. unfold gets at 1. rewrite Hp.
  unfold bind at 1. unfold modify at 1.
  unfold bind at 1. unfold gets at 1. fields. rewrite Hch.
  cbn [length initialize_loop].
  unfold bind at 1. unfold childCount at 1, gets at 1. fields.
  rewrite Hch. rewrite decide_True by (simpl; lia).
  unfold bind at 1. unfold childAt at 1, gets at 1. fields.
  rewrite Hch. rewrite (get_int_lookup _ 0%nat). cbn [lookup list_lookup].
  unfold bind at 1. unfold gets at 1. fields.
  unfold bind at 1.
  match goal with
  | |- context [setParent c0 (Some p) ?s0] =>
      change (Some p) with (parent s0) at 1; rewrite (setParent_own c0 s0)
  end.
  unfold bind at 1. rewrite attachChild_eq; cbv zeta.
  unfold relink; fields. rewrite Hch.
  rewrite (get_int_lookup _ 1%nat). cbn [lookup list_lookup fmap option_fmap option_map].
  rewrite insertBefore_missing by set_solver.
  eexists; split; [done |]. unfold entered; fields. by rewrite Hch.
Qed.

(** Installing a layout that holds a single child goes through: there is
    no reference node and the child's node is appended. *)
Lemma install_single s p live c :
  parent s = None → children s = [c] →
  ∃ s', install p live s = Ret tt s' ∧ synced s'
        ∧ messages s' = messages s ++ if live then [(c, MsgAfterAttach)] else [].
Proof.
  intros Hp Hch. unfold install, initialize.
  unfold bind at 1. unfold gets at 1. rewrite Hp.
  unfold bind at 1. unfold modify at 1.
  unfold bind at 1. unfold gets at 1. fields. rewrite Hch.
  cbn [length initialize_loop].
  unfold bind at 1. unfold childCount at 1, gets at 1. fields.
  rewrite Hch. rewrite decide_True by (simpl; lia).
  unfold bind at 1. unfold childAt at 1, gets at 1. fields.
  rewrite Hch. rewrite (get_int_lookup _ 0%nat). cbn [lookup list_lookup].
  unfold bind at 1. unfold gets at 1. fields.
  unfold bind at 1.
  match goal with
  | |- context [setParent c (Some p) ?s0] =>
      change (Some p) with (parent s0) at 1; rewrite (setParent_own c s0)
  end.
  unfold bind at 1. rewrite attachChild_eq; cbv zeta.
  unfold relink; fields. rewrite Hch.
  rewrite (get_int_lookup _ 1%nat). cbn [lookup list_lookup fmap option_fmap option_map].
  cbn [Dom.insertBefore Dom.without filter list_filter app].
  unfold childCount, gets; fields.
  destruct live; unfold told, entered; fields; unfold bind; fields;
    rewrite Hch; (rewrite decide_False by (simpl; lia));
    (eexists; split; [done |]); unfold synced; fields;
    by rewrite Hch, ?app_nil_r.
Qed.

(** C4, at the failing input: B, C and A are appended to a layout that has
    no container yet, then the layout is installed on a live container.
    [initialize()] throws in its first [attachChild]: the sequence is
    B, C, A, the container has no child node, and no child was told
    'after-attach'. *)
Theorem initialize_breaks_node_order :
  children threePending = [widgetB; widgetC; widgetA]
  ∧ ∃ s', install panel true threePending = Throw NotFoundError s'
          ∧ children s' = [widgetB; widgetC; widgetA]
          ∧ childNodes s' = []
          ∧ messages s' = []
          ∧ ¬ synced s'.
Proof.
  split; [by vm_compute |].
  eexists. split; [by vm_compute |].
  by split_and!.
Qed.

(** The same failure on the test "should attach widget children": A and B
    are appended to a layout that has no container yet, then the layout is
    installed on a live container. [initialize()] enters
    [attachChild(0, A)], whose reference is the node of B, not in the
    container yet: the DOM raises NotFoundError before the message is
    sent. *)
Lemma initialize_sends_no_after_attach :
  ∃ s', install panel true twoPending = Throw NotFoundError s'
        ∧ isAttached s' = true
        ∧ methods s' = [CallAttach 0 widgetA]
        ∧ messages s' = [].
Proof.
  eexists. split; [by vm_compute |]. by split_and!.
Qed.

(** C6, at the failing input: B, C and A are appended to a layout that has
    no container yet and the layout is installed on a live container.
    [initialize()] enters [attachChild(0, B)] and throws: the container is
    live, the hook was entered, and B was sent no 'after-attach'; called
    again in the state left behind, the hook does the same. In that state
    [insertChild(0, A)] enters [moveChild(2, 0, A)], which sends
    'before-detach' to A and throws before the 'after-attach': the pair
    the hook owes the moved child is cut in half. *)
Theorem hooks_miss_notifications :
  install panel true threePending = Throw NotFoundError threeInstalled
  ∧ children threeInstalled = [widgetB; widgetC; widgetA]
  ∧ parent threeInstalled = Some panel
  ∧ isAttached threeInstalled = true
  ∧ methods threeInstalled = [CallAttach 0 widgetB]
  ∧ messages threeInstalled = []
  ∧ (∃ s', attachChild 0 widgetB threeInstalled = Throw NotFoundError s'
           ∧ messages s' = [])
  ∧ (∃ s', moveChild 2 0 widgetA
             (with_children [widgetA; widgetB; widgetC] threeInstalled)
           = Throw NotFoundError s'
           ∧ messages s' = [(widgetA, MsgBeforeDetach)])
  ∧ ∃ s', insertChild (int 0) widgetA threeInstalled = Throw NotFoundError s'
          ∧ children s' = [widgetA; widgetB; widgetC]
          ∧ methods s' = [CallAttach 0 widgetB; CallMove 2 0 widgetA]
          ∧ messages s' = [(widgetA, MsgBeforeDetach)].
Proof.
  split_and!; try (by vm_compute).
  - eexists. split; [by vm_compute | done].
  - eexists. split; [by vm_compute | done].
  - eexists. split; [by vm_compute |]. by split_and!.
Qed.

(** ** The test suite, replayed on the model *)

(** "should move the child if it is already contained in the layout" *)
Example test_addChild_moves :
  children (final ((addChild widgetA >> addChild widgetB >> addChild widgetA)
                     newLayout))
  = [widgetB; widgetA].
Proof. by vm_compute. Qed.

(** "should be a no-op if the index stays the same" *)
Example test_insertChild_same_index :
  children (final ((addChild widgetA >> addChild widgetB
                    >> insertChild (int 0) widgetA) newLayout))
  = [widgetA; widgetB].
Proof. by vm_compute. Qed.

(** "should insert child nodes in the proper order" *)
Example test_insert_node_order :
  childNodes (final ((addChild widgetA >> insertChild (int 0) widgetC
                      >> insertChild (int 1) widgetB) livePanel))
  = [NodeOf widgetC; NodeOf widgetB; NodeOf widgetA].
Proof. by vm_compute. Qed.

(** "should move child nodes to the proper location" *)
Example test_move_node_order :
  let s1 := final ((addChild widgetA >> addChild widgetB >> addChild widgetC
                    >> insertChild (int 1) widgetA) livePanel) in
  let s2 := final (addChild widgetB s1) in
  childNodes s1 = [NodeOf widgetB; NodeOf widgetA; NodeOf widgetC]
  ∧ childNodes s2 = [NodeOf widgetA; NodeOf widgetC; NodeOf widgetB].
Proof. by vm_compute. Qed.

(** "should send 'before-detach' and 'after-attach' messages as
    appropriate": moving B to the front of a live panel. *)
Example test_move_messages :
  drop (length (messages twoChildren))
    (messages (final (insertChild (int 0) widgetB twoChildren)))
  = [(widgetB, MsgBeforeDetach); (widgetB, MsgAfterAttach)].
Proof. by vm_compute. Qed.

(** "should remove child nodes from the parent" *)
Example test_remove_nodes :
  childNodes (final (onChildRemoved widgetA twoChildren)) = [NodeOf widgetB].
Proof. by vm_compute. Qed.

(** * Further properties of the layout *)

(** ** Which children a layout holds after [insertChild] *)

Lemma insert_elem (a : list Widget) (j : Z) v x :
  x ∈ arrays.insert a j v ↔ x = v ∨ x ∈ a.
Proof.
  unfold arrays.insert.
  set (k := Z.to_nat _).
  rewrite <- (take_drop k a) at 3.
  rewrite !elem_of_app, elem_of_cons. tauto.
Qed.

Lemma move_elem (a : list Widget) (i t : Z) x : x ∈ arrays.move a i t ↔ x ∈ a.
Proof.
  unfold arrays.move. case_match; [| done].
  destruct (a !! Z.to_nat i) as [v|] eqn:Hv; [| done].
  set (k := Z.to_nat t).
  assert (Hsplit : ∀ y, y ∈ a ↔ y = v ∨ y ∈ delete (Z.to_nat i) a).
  { intros y. rewrite delete_take_drop.
    rewrite <- (take_drop_middle a (Z.to_nat i) v) at 1 by done.
    rewrite !elem_of_app, elem_of_cons. tauto. }
  rewrite Hsplit.
  rewrite <- (take_drop k (delete (Z.to_nat i) a)) at 3.
  rewrite !elem_of_app, elem_of_cons. tauto.
Qed.

Lemma insertChild_elem s index child x :
  x ∈ children (final (insertChild index child s))
  ↔ x = child ∨ x ∈ children s.
Proof.
  rewrite insertChild_children; cbv zeta.
  destruct (decide (child ∈ children s)) as [Hin | Hnew].
  - destruct (indexOf_present _ _ Hin) as (i & Hi & _).
    rewrite Hi, decide_True by lia.
    case_decide; rewrite ?move_elem; split; auto.
    all: intros [-> | ?]; done.
  - rewrite (indexOf_absent _ _ Hnew), decide_False by lia.
    apply insert_elem.
Qed.

(** X1: after [insertChild] the layout holds exactly the children it held
    before and the inserted child: no other child is lost or gained, for
    every index and whether or not a hook throws. *)
Theorem insertChild_members s index child x :
  x ∈ children (final (insertChild index child s))
  ↔ x = child ∨ x ∈ children s.
Proof. apply insertChild_elem. Qed.

(** ** A layout without a container *)

Lemma insertChild_parentless s index child :
  parent s = None →
  ∃ s', insertChild index child s = Ret tt s'
        ∧ parent s' = None
        ∧ childNodes s' = childNodes s
        ∧ messages s' = messages s
        ∧ methods s' = methods s.
Proof.
  intros Hp. rewrite insertChild_eq; cbv zeta. rewrite Hp.
  repeat case_decide; eexists; (split; [done |]);
    unfold relink; fields; by rewrite ?Hp.
Qed.

(** X2: on a layout that has no container, [insertChild] always returns,
    and it enters no hook, sends no message and touches no node: only the
    sequence and the parent link of the child change. *)
Theorem insertChild_without_container s index child :
  parent s = None →
  ∃ s', insertChild index child s = Ret tt s'
        ∧ parent s' = None
        ∧ childNodes s' = childNodes s
        ∧ messages s' = messages s
        ∧ methods s' = methods s
        ∧ widgetParent s' !! child = None.
Proof.
  intros Hp.
  destruct (insertChild_parentless s index child Hp)
    as (s' & Hrun & Hp' & Hn & Hm & Hc).
  exists s'. split_and!; try done.
  pose proof (insertChild_widgetParent index child s) as Hw.
  by rewrite Hrun, Hp in Hw.
Qed.

Lemma insertChild_without_container_witness :
  ∃ s', insertChild (int 0) widgetC threePending = Ret tt s'
        ∧ parent s' = None
        ∧ childNodes s' = childNodes threePending
        ∧ messages s' = messages threePending
        ∧ methods s' = methods threePending
        ∧ widgetParent s' !! widgetC = None.
Proof.
  apply (insertChild_without_container threePending (int 0) widgetC).
  vm_compute. reflexivity.
Defined.

(** ** The parent link *)

Lemma insertChild_other_parents index child s w :
  w ≠ child →
  widgetParent (final (insertChild index child s)) !! w = widgetParent s !! w.
Proof.
  intros Hw.
  assert (Hr : widgetParent (relink child (parent s) s) !! w
               = widgetParent s !! w).
  { unfold relink; fields. destruct (parent s).
    - by rewrite lookup_insert_ne.
    - by rewrite lookup_delete_ne. }
  rewrite insertChild_eq; cbv zeta.
  repeat case_decide; destruct (parent s) eqn:Hp; fields; try done.
  - match goal with
    | |- context [moveChild ?i ?t ?c ?s2] =>
        destruct (moveChild_frame i t c s2) as (_ & _ & _ & _ & -> & _)
    end.
    fields. exact Hr.
  - match goal with
    | |- context [attachChild ?t ?c ?s2] =>
        destruct (attachChild_frame t c s2) as (_ & _ & _ & _ & -> & _)
    end.
    fields. exact Hr.
Qed.

(** X3: [insertChild] gives the child the container of the layout as
    parent in every case, also when the child is already in the layout and
    stays where it is, and it changes the parent link of no other
    widget. *)
Theorem insertChild_parent_link s index child :
  widgetParent (final (insertChild index child s)) !! child = parent s
  ∧ ∀ w, w ≠ child →
      widgetParent (final (insertChild index child s)) !! w
      = widgetParent s !! w.
Proof.
  split.
  - apply insertChild_widgetParent.
  - intros w Hw. by apply insertChild_other_parents.
Qed.

(** ** A layout in use: installed, its nodes following the sequence *)

(** [insertChild] on such a layout, in full. *)
Lemma insertChild_installed s index child p :
  parent s = Some p → NoDup (children s) → synced s →
  ∃ s', insertChild index child s = Ret tt s'
        ∧ synced s' ∧ parent s' = Some p ∧ NoDup (children s')
        ∧ isAttached s' = isAttached s
        ∧ messages s' = messages s ++
            if isAttached s then insertMessages s index child else [].
Proof.
  intros Hp Hnd Hsync.
  assert (Hgoal : ∃ s', insertChild index child s = Ret tt s'
        ∧ synced s' ∧ parent s' = Some p
        ∧ isAttached s' = isAttached s
        ∧ messages s' = messages s ++
            if isAttached s then insertMessages s index child else []).
  2:{ destruct Hgoal as (s' & Hrun & H1 & H2 & H3 & H4).
      exists s'. split_and!; try done.
      pose proof (insertChild_NoDup index child s Hnd) as Hnd'.
      by rewrite Hrun in Hnd'. }
  unfold synced in *. unfold insertMessages.
  rewrite insertChild_eq; cbv zeta. rewrite Hp.
  assert (Hj : 0 ≤ clampIndex index (count s) ≤ count s).
  { apply clampIndex_range. unfold count; lia. }
  set (j := clampIndex index (count s)) in *.
  destruct (decide (child ∈ children s)) as [Hin | Hnew].
  - destruct (indexOf_present _ _ Hin) as (i & Hi & Hlook & _).
    pose proof (lookup_lt_Some _ _ _ Hlook) as Hlt.
    assert (Ht : 0 ≤ moveTarget j (count s) < count s).
    { apply moveTarget_range; [unfold count; lia | done]. }
    set (t := moveTarget j (count s)) in *.
    rewrite Hi, decide_True by lia.
    destruct (decide (Z.of_nat i = t)) as [Hit | Hit].
    { eexists; split; [done |]. unfold relink; fields.
      split_and!; try done. destruct (isAttached s); by rewrite app_nil_r. }
    destruct (delete_NoDup _ i child Hnd Hlook) as [Hnd' Hc'].
    assert (Hmv : arrays.move (children s) (Z.of_nat i) t
                  = take (Z.to_nat t) (delete i (children s))
                    ++ child :: drop (Z.to_nat t) (delete i (children s))).
    { rewrite (move_in_range _ _ _ child); rewrite ?Nat2Z.id; try done; lia. }
    rewrite moveChild_eq; cbv zeta. unfold relink; fields.
    rewrite Hp. rewrite hook_index_lookup by lia. rewrite Hmv.
    rewrite (placement_synced (delete i (children s))); [| done | done | |].
    + eexists; split; [done |].
      destruct (isAttached s) eqn:Ha; unfold told, entered; fields;
        rewrite ?Hmv, ?Ha, <- ?app_assoc, ?app_nil_r; by split_and!.
    + rewrite length_delete by done. unfold count in Ht. lia.
    + rewrite Hsync. by apply without_fmap_delete.
  - rewrite (indexOf_absent _ _ Hnew), decide_False by lia.
    rewrite attachChild_eq; cbv zeta. unfold relink; fields.
    rewrite Hp. rewrite hook_index_lookup by lia.
    unfold count in Hj. rewrite insert_clamped by lia.
    rewrite (placement_synced (children s)); [| done | done | lia |].
    + eexists; split; [done |].
      destruct (isAttached s) eqn:Ha; unfold told, entered; fields;
        rewrite ?insert_clamped, ?Ha, ?app_nil_r by lia; by split_and!.
    + rewrite Hsync. by apply without_fmap_fresh.
Qed.

(** The removal notification on such a layout, in full. *)
Lemma onChildRemoved_installed s child p :
  parent s = Some p → NoDup (children s) → synced s →
  ∃ s', onChildRemoved child s = Ret tt s'
        ∧ synced s' ∧ parent s' = Some p ∧ NoDup (children s')
        ∧ isAttached s' = isAttached s
        ∧ messages s' = messages s ++
            if isAttached s && bool_decide (child ∈ children s)
            then [(child, MsgBeforeDetach)] else [].
Proof.
  intros Hp Hnd Hsync. unfold synced in *.
  destruct (decide (child ∈ children s)) as [Hin | Hout].
  { rewrite (bool_decide_eq_true_2 _ Hin), andb_true_r.
    rewrite onChildRemoved_eq.
    destruct (remove_present _ _ Hin) as (i & -> & Hi).
    destruct (delete_NoDup _ i child Hnd Hi) as [Hnd' _].
    rewrite decide_True by lia.
    rewrite detachChild_eq; cbv zeta; fields. rewrite Hp.
    unfold Dom.removeChild. rewrite decide_True.
    - eexists; split; [done |].
      destruct (isAttached s) eqn:Ha; unfold told, entered; fields;
        rewrite Hsync, ?Ha, ?app_nil_r; split_and!; try done;
        by apply without_fmap_delete.
    - rewrite Hsync. apply list_elem_of_fmap_2.
      eapply list_elem_of_lookup_2; eauto. }
  rewrite (bool_decide_eq_false_2 _ Hout), andb_false_r, app_nil_r.
  exists s. split; [by apply onChildRemoved_noop | done].
Qed.

Lemma perform_editing_installed op s p :
  editing op = true →
  parent s = Some p → NoDup (children s) → synced s →
  ∃ s', perform op s = Ret tt s'
        ∧ parent s' = Some p ∧ NoDup (children s') ∧ synced s'.
Proof.
  intros Hop Hp Hnd Hsync.
  destruct op as [index child | child | child | | q live]; try done; simpl.
  - destruct (insertChild_installed s index child p) as (s' & ? & ? & ? & ? & _);
      eauto.
  - rewrite addChild_eq.
    destruct (insertChild_installed s (int (count s)) child p)
      as (s' & ? & ? & ? & ? & _); eauto.
  - destruct (onChildRemoved_installed s child p) as (s' & ? & ? & ? & ? & _);
      eauto.
Qed.

(** X4: on a layout that has its container, with distinct children and the
    container's child nodes in the order of the sequence, every run of
    [insertChild], [addChild] and removal notifications returns without
    throwing, and afterwards the children are still distinct and the child
    nodes of the container are again exactly the nodes of the children, in
    the order of the sequence. *)
Theorem editing_keeps_node_order ops : ∀ s p,
  forallb editing ops = true →
  parent s = Some p → NoDup (children s) → synced s →
  ∃ s', runAll ops s = Ret tt s'
        ∧ parent s' = Some p ∧ NoDup (children s') ∧ synced s'.
Proof.
  induction ops as [| op ops IH]; intros s p Hops Hp Hnd Hsync; simpl.
  - by exists s.
  - simpl in Hops. apply andb_prop in Hops as [Hop Hops].
    destruct (perform_editing_installed op s p Hop Hp Hnd Hsync)
      as (s1 & Hrun & Hp1 & Hnd1 & Hsync1).
    destruct (IH s1 p Hops Hp1 Hnd1 Hsync1) as (s2 & Hrun2 & ?).
    exists s2. split; [| done].
    unfold bind. by rewrite Hrun.
Qed.

Lemma editing_keeps_node_order_witness :
  ∃ s', runAll [OpInsert (int 0) widgetC; OpAdd widgetA;
                OpChildRemoved widgetB] twoChildren = Ret tt s'
        ∧ parent s' = Some panel ∧ NoDup (children s') ∧ synced s'.
Proof.
  apply (editing_keeps_node_order
           [OpInsert (int 0) widgetC; OpAdd widgetA; OpChildRemoved widgetB]
           twoChildren panel).
  - reflexivity.
  - vm_compute. reflexivity.
  - compute_done.
  - vm_compute. reflexivity.
Defined.

(** X5: on such a layout [insertChild] returns, and what it sends is
    exactly this: nothing when the container is not live or the child
    stays in place; 'after-attach' to the child when it is new;
    'before-detach' then 'after-attach' to the child when it moves. No
    other widget receives a message. *)
Theorem insertChild_messages s index child p :
  parent s = Some p → NoDup (children s) → synced s →
  ∃ s', insertChild index child s = Ret tt s'
        ∧ messages s' = messages s ++
            if isAttached s then insertMessages s index child else [].
Proof.
  intros Hp Hnd Hsync.
  destruct (insertChild_installed s index child p Hp Hnd Hsync)
    as (s' & Hrun & _ & _ & _ & _ & Hm).
  by exists s'.
Qed.

Lemma insertChild_messages_witness :
  ∃ s', insertChild (int 0) widgetB twoChildren = Ret tt s'
        ∧ messages s' = messages twoChildren ++
            if isAttached twoChildren
            then insertMessages twoChildren (int 0) widgetB else [].
Proof.
  apply (insertChild_messages twoChildren (int 0) widgetB panel).
  - vm_compute. reflexivity.
  - compute_done.
  - vm_compute. reflexivity.
Defined.

(** ** Appending *)

Lemma clampIndex_count n : 0 ≤ n < 2 ^ 31 → clampIndex (int n) n = n.
Proof.
  intros Hn. unfold clampIndex.
  rewrite ToInt32_int, wrap32_small by lia. lia.
Qed.

Lemma addChild_children s child :
  count s < 2 ^ 31 →
  children (final (addChild child s)) =
  (if decide (child ∈ children s)
   then delete (Z.to_nat (Js.indexOf (children s) child)) (children s)
   else children s) ++ [child].
Proof.
  intros Hn. rewrite addChild_eq, insertChild_children; cbv zeta.
  rewrite clampIndex_count by (unfold count in *; lia).
  destruct (decide (child ∈ children s)) as [Hin | Hnew].
  - destruct (indexOf_present _ _ Hin) as (i & Hi & Hlook & _).
    pose proof (lookup_lt_Some _ _ _ Hlook) as Hlt.
    rewrite Hi, Nat2Z.id, decide_True by lia.
    assert (Ht : moveTarget (count s) (count s) = count s - 1).
    { unfold moveTarget. by rewrite decide_True. }
    rewrite Ht. unfold count in *.
    case_decide as Hlast.
    + assert (i = (length (children s) - 1)%nat) as -> by lia.
      rewrite delete_take_drop.
      rewrite <- (take_drop_middle (children s) _ child Hlook) at 1.
      rewrite (drop_ge (children s) (S _)) by lia.
      by rewrite app_nil_r.
    + rewrite (move_in_range _ _ _ child); rewrite ?Nat2Z.id; try done; try lia.
      rewrite take_ge, drop_ge; [done | |];
        rewrite length_delete by done; lia.
  - rewrite (indexOf_absent _ _ Hnew), decide_False by lia.
    rewrite insert_clamped by (unfold count; lia).
    unfold count. by rewrite Nat2Z.id, take_ge, drop_ge by lia.
Qed.

(** X6: [addChild] leaves the child last in the sequence, the other
    children in their order: a new child is appended, a child already in
    the layout is taken out of its place and put at the end (so it is
    never duplicated). The count must be below 2^31, since [insertChild]
    takes the count it is passed through [| 0]. *)
Theorem addChild_puts_last s child :
  count s < 2 ^ 31 →
  children (final (addChild child s)) =
  (if decide (child ∈ children s)
   then delete (Z.to_nat (Js.indexOf (children s) child)) (children s)
   else children s) ++ [child].
Proof. apply addChild_children. Qed.

Lemma addChild_puts_last_witness :
  children (final (addChild widgetA twoChildren)) =
  (if decide (widgetA ∈ children twoChildren)
   then delete (Z.to_nat (Js.indexOf (children twoChildren) widgetA))
          (children twoChildren)
   else children twoChildren) ++ [widgetA].
Proof.
  apply (addChild_puts_last twoChildren widgetA).
  vm_compute. reflexivity.
Defined.

(** Appending goes through on a layout without container and on one whose
    nodes follow the sequence. *)
Lemma addChild_returns s child :
  NoDup (children s) → parent s = None ∨ synced s →
  ∃ s', addChild child s = Ret tt s'
        ∧ NoDup (children s') ∧ (parent s' = None ∨ synced s').
Proof.
  intros Hnd Huse. rewrite addChild_eq.
  destruct (parent s) as [p|] eqn:Hp.
  - destruct Huse as [? | Hsync]; [done |].
    destruct (insertChild_installed s (int (count s)) child p Hp Hnd Hsync)
      as (s' & Hrun & Hs' & _ & Hnd' & _).
    exists s'. split_and!; [done | done | by right].
  - destruct (insertChild_parentless s (int (count s)) child Hp)
      as (s' & Hrun & Hp' & _).
    exists s'. split_and!; [done | | by left].
    pose proof (insertChild_NoDup (int (count s)) child s Hnd) as Hnd'.
    by rewrite Hrun in Hnd'.
Qed.

(** X7: appending distinct new children one after the other, to a layout
    without container or to one whose nodes follow the sequence, returns
    and leaves the old sequence followed by the new children in the order
    they were appended; the count grows by their number. *)
Theorem addAll_appends l : ∀ s,
  NoDup (children s ++ l) → count s + Z.of_nat (length l) < 2 ^ 31 →
  parent s = None ∨ synced s →
  ∃ s', addAll l s = Ret tt s'
        ∧ children s' = children s ++ l
        ∧ count s' = count s + Z.of_nat (length l).
Proof.
  induction l as [| c l IH]; intros s Hnd Hn Huse; simpl.
  - exists s. split_and!; [done | by rewrite app_nil_r | lia].
  - assert (Hnds : NoDup (children s)) by by apply NoDup_app in Hnd as [? _].
    assert (Hc : c ∉ children s).
    { apply NoDup_app in Hnd as (_ & Hsep & _).
      intros Hin. apply (Hsep c Hin). by left. }
    destruct (addChild_returns s c Hnds Huse) as (s1 & Hrun & Hnd1 & Huse1).
    assert (Hch1 : children s1 = children s ++ [c]).
    { pose proof (addChild_children s c) as H.
      rewrite Hrun, decide_False in H by done. apply H.
      simpl in Hn. lia. }
    destruct (IH s1) as (s2 & Hrun2 & Hch2 & Hcnt2).
    { by rewrite Hch1, <- app_assoc. }
    { unfold count in *. rewrite Hch1, length_app; simpl in *. lia. }
    { done. }
    exists s2. split_and!.
    + unfold bind. by rewrite Hrun.
    + by rewrite Hch2, Hch1, <- app_assoc.
    + unfold count in *. rewrite Hcnt2, Hch1, length_app; simpl. lia.
Qed.

Lemma addAll_appends_witness :
  ∃ s', addAll [widgetB; widgetC; widgetA] newLayout = Ret tt s'
        ∧ children s' = children newLayout ++ [widgetB; widgetC; widgetA]
        ∧ count s' = count newLayout
                     + Z.of_nat (length [widgetB; widgetC; widgetA]).
Proof.
  apply (addAll_appends [widgetB; widgetC; widgetA] newLayout).
  - compute_done.
  - vm_compute. reflexivity.
  - left. reflexivity.
Defined.

(** ** [initialize()] *)

(** X8: on a layout with a container, [initialize()] does nothing when
    there is no child; with a single child it returns, having given the
    child the container as parent, entered [attachChild(0, child)] once,
    put the child's node last among the child nodes of the container, and
    sent 'after-attach' to the child exactly when the container is live. *)
Theorem initialize_at_most_one s p :
  parent s = Some p →
  (children s = [] → initialize s = Ret tt s)
  ∧ (∀ c, children s = [c] →
       ∃ s', initialize s = Ret tt s'
             ∧ children s' = [c]
             ∧ widgetParent s' !! c = Some p
             ∧ methods s' = methods s ++ [CallAttach 0 c]
             ∧ childNodes s'
               = Dom.without (NodeOf c) (childNodes s) ++ [NodeOf c]
             ∧ messages s' = messages s ++
                 if isAttached s then [(c, MsgAfterAttach)] else []).
Proof.
  intros Hp. split.
  - intros Hch. unfold initialize, bind, gets. rewrite Hch.
    cbn [length initialize_loop]. unfold bind, childCount, gets.
    rewrite Hch. by rewrite decide_False by (simpl; lia).
  - intros c Hch. unfold initialize.
    unfold bind at 1. unfold gets at 1. rewrite Hch.
    cbn [length initialize_loop].
    unfold bind at 1. unfold childCount at 1, gets at 1.
    rewrite Hch. rewrite decide_True by (simpl; lia).
    unfold bind at 1. unfold childAt at 1, gets at 1.
    rewrite Hch. rewrite (get_int_lookup _ 0%nat). cbn [lookup list_lookup].
    unfold bind at 1. unfold gets at 1.
    unfold bind at 1. rewrite setParent_own.
    unfold bind at 1. rewrite attachChild_eq; cbv zeta.
    unfold relink; fields. rewrite Hp, Hch.
    rewrite (get_int_lookup _ 1%nat).
    cbn [lookup list_lookup fmap option_fmap option_map Dom.insertBefore].
    unfold childCount, gets, bind.
    destruct (isAttached s) eqn:Ha; unfold told, entered; fields;
      rewrite Hch; (rewrite decide_False by (simpl; lia));
      (eexists; split; [done |]); fields;
      rewrite ?app_nil_r; split_and!; try done; apply lookup_insert_eq.
Qed.

Lemma initialize_at_most_one_witness :
  ∃ s', initialize (with_children [widgetC] livePanel) = Ret tt s'
        ∧ children s' = [widgetC]
        ∧ widgetParent s' !! widgetC = Some panel
        ∧ methods s' = methods (with_children [widgetC] livePanel)
                        ++ [CallAttach 0 widgetC]
        ∧ childNodes s'
          = Dom.without (NodeOf widgetC)
              (childNodes (with_children [widgetC] livePanel))
            ++ [NodeOf widgetC]
        ∧ messages s' = messages (with_children [widgetC] livePanel) ++
            if isAttached (with_children [widgetC] livePanel)
            then [(widgetC, MsgAfterAttach)] else [].
Proof.
  destruct (initialize_at_most_one (with_children [widgetC] livePanel) panel)
    as [_ Hone].
  - vm_compute. reflexivity.
  - apply (Hone widgetC). reflexivity.
Defined.

(** X9: on a layout with a container, [initialize()] throws as soon as
    there are two or more children and the node of the second is not yet a
    child node of the container (as on every container that comes without
    child nodes): the first [attachChild] hands that node to
    [insertBefore] as reference and the DOM raises NotFoundError. By then
    the first child has the container as parent, but no node has been
    placed and no message sent; the later children are not reached. *)
Theorem initialize_throws_on_pending_children s p c0 c1 rest :
  parent s = Some p → children s = c0 :: c1 :: rest →
  NodeOf c1 ∉ childNodes s →
  ∃ s', initialize s = Throw NotFoundError s'
        ∧ children s' = children s
        ∧ childNodes s' = childNodes s
        ∧ messages s' = messages s
        ∧ methods s' = methods s ++ [CallAttach 0 c0]
        ∧ widgetParent s' !! c0 = Some p
        ∧ ∀ w, w ≠ c0 → widgetParent s' !! w = widgetParent s !! w.
Proof.
  intros Hp Hch Hout. unfold initialize.
  unfold bind at 1. unfold gets at 1. rewrite Hch.
  cbn [length initialize_loop].
  unfold bind at 1. unfold childCount at 1, gets at 1.
  rewrite Hch. rewrite decide_True by (simpl; lia).
  unfold bind at 1. unfold childAt at 1, gets at 1.
  rewrite Hch. rewrite (get_int_lookup _ 0%nat). cbn [lookup list_lookup].
  unfold bind at 1. unfold gets at 1.
  unfold bind at 1. rewrite setParent_own.
  unfold bind at 1. rewrite attachChild_eq; cbv zeta.
  unfold relink; fields. rewrite Hp, Hch.
  rewrite (get_int_lookup _ 1%nat).
  cbn [lookup list_lookup fmap option_fmap option_map].
  rewrite insertBefore_missing by done.
  eexists; split; [done |]. unfold entered; fields.
  split_and!; try done.
  - apply lookup_insert_eq.
  - intros w Hw. by apply lookup_insert_ne.
Qed.

Lemma initialize_throws_on_pending_children_witness :
  ∃ s', initialize (with_parent (Some panel) threePending)
          = Throw NotFoundError s'
        ∧ children s' = children (with_parent (Some panel) threePending)
        ∧ childNodes s' = childNodes (with_parent (Some panel) threePending)
        ∧ messages s' = messages (with_parent (Some panel) threePending)
        ∧ methods s' = methods (with_parent (Some panel) threePending)
                        ++ [CallAttach 0 widgetB]
        ∧ widgetParent s' !! widgetB = Some panel
        ∧ ∀ w, w ≠ widgetB →
            widgetParent s' !! w
            = widgetParent (with_parent (Some panel) threePending) !! w.
Proof.
  apply (initialize_throws_on_pending_children
           (with_parent (Some panel) threePending) panel
           widgetB widgetC [widgetA]).
  - reflexivity.
  - vm_compute. reflexivity.
  - compute_done.
Defined.

(** ** The 'child-removed' handler *)

Lemma indexOf_lookup (a : list Widget) (i : nat) v :
  NoDup a → a !! i = Some v → Js.indexOf a v = Z.of_nat i.
Proof.
  intros Hnd Hi.
  destruct (indexOf_present a v) as (k & -> & Hk & _).
  { eapply list_elem_of_lookup_2; eauto. }
  f_equal. eapply NoDup_lookup; eauto.
Qed.

(** X10: on a layout that has its container, with distinct children and the
    container's child nodes in the order of the sequence, the
    'child-removed' handler called for a child at position [i] returns: the
    child is taken out of the sequence at [i] and is no longer in it, the
    count drops by one, [detachChild(i, child)] is entered once, the
    child's node is taken out of the container, whose nodes still follow
    the sequence, and the child is sent 'before-detach' exactly when the
    container is live. *)
Theorem onChildRemoved_present s child p (i : nat) :
  parent s = Some p → NoDup (children s) → synced s →
  children s !! i = Some child →
  ∃ s', onChildRemoved child s = Ret tt s'
        ∧ children s' = delete i (children s)
        ∧ (child ∉ children s')
        ∧ count s' = count s - 1
        ∧ methods s' = methods s ++ [CallDetach (Z.of_nat i) child]
        ∧ childNodes s' = Dom.without (NodeOf child) (childNodes s)
        ∧ synced s'
        ∧ messages s' = messages s ++
            if isAttached s then [(child, MsgBeforeDetach)] else [].
Proof.
  intros Hp Hnd Hsync Hi.
  assert (Hin : child ∈ children s) by (eapply list_elem_of_lookup_2; eauto).
  destruct (onChildRemoved_installed s child p Hp Hnd Hsync)
    as (s' & Hrun & Hsync' & _ & _ & _ & Hmsg).
  pose proof (onChildRemoved_children child s) as Hch.
  pose proof (onChildRemoved_methods child s) as Hm.
  rewrite Hrun in Hch, Hm; simpl in Hch, Hm.
  rewrite decide_True in Hm by done.
  rewrite (indexOf_lookup _ i) in Hm by done.
  destruct (remove_present _ _ Hin) as (k & Hk & Hk').
  rewrite Hk in Hch; simpl in Hch.
  assert (k = i) as -> by (eapply NoDup_lookup; eauto).
  destruct (delete_NoDup _ i child Hnd Hi) as [_ Hgone].
  rewrite (bool_decide_eq_true_2 _ Hin), andb_true_r in Hmsg.
  exists s'. split_and!; try done.
  - by rewrite Hch.
  - unfold count. rewrite Hch, length_delete by eauto.
    apply lookup_lt_Some in Hi. lia.
  - rewrite Hsync', Hch, Hsync. symmetry. by apply without_fmap_delete.
Qed.

Lemma onChildRemoved_present_witness :
  ∃ s', onChildRemoved widgetB twoChildren = Ret tt s'
        ∧ children s' = delete 1%nat (children twoChildren)
        ∧ (widgetB ∉ children s')
        ∧ count s' = count twoChildren - 1
        ∧ methods s' = methods twoChildren
                       ++ [CallDetach (Z.of_nat 1) widgetB]
        ∧ childNodes s' = Dom.without (NodeOf widgetB) (childNodes twoChildren)
        ∧ synced s'
        ∧ messages s' = messages twoChildren ++
            if isAttached twoChildren then [(widgetB, MsgBeforeDetach)]
            else [].
Proof.
  apply (onChildRemoved_present twoChildren widgetB panel 1%nat).
  - vm_compute. reflexivity.
  - compute_done.
  - vm_compute. reflexivity.
  - vm_compute. reflexivity.
Defined.

(** ** Inserting and removing, inserting twice *)

Lemma remove_insert (a : list Widget) (j : Z) v :
  v ∉ a → (arrays.remove (arrays.insert a j v) v).2 = a.
Proof.
  intros Hv. unfold arrays.insert.
  set (k := Z.to_nat _).
  assert (Hk : v ∉ take k a).
  { intros Hin. apply Hv. rewrite <- (take_drop k a).
    apply elem_of_app. by left. }
  pose proof (remove_fst (take k a ++ v :: drop k a) v) as Hfst.
  rewrite indexOf_app_fresh in Hfst by done.
  destruct (remove_present (take k a ++ v :: drop k a) v)
    as (i & Hrm & _).
  { apply elem_of_app. right. by left. }
  rewrite Hrm in Hfst |- *; simpl in *.
  apply Nat2Z.inj in Hfst as ->.
  by rewrite delete_middle, take_drop.
Qed.

(** X11: the 'child-removed' handler undoes the insertion of a new child:
    for a child that is not in the sequence, inserting it at any index and
    then removing it gives back the sequence there was. On a layout that
    has its container, with distinct children and the container's child
    nodes in the order of the sequence, both calls return, the child nodes
    of the container are back as they were, and on a live container the
    child has been sent 'after-attach' then 'before-detach' and nothing
    else. *)
Theorem insert_then_remove s index child :
  child ∉ children s →
  children (final (onChildRemoved child (final (insertChild index child s))))
    = children s
  ∧ ∀ p, parent s = Some p → NoDup (children s) → synced s →
      ∃ s1 s2, insertChild index child s = Ret tt s1
               ∧ onChildRemoved child s1 = Ret tt s2
               ∧ childNodes s2 = childNodes s
               ∧ messages s2 = messages s ++
                   if isAttached s
                   then [(child, MsgAfterAttach); (child, MsgBeforeDetach)]
                   else [].
Proof.
  intros Hout.
  assert (Hch : children
      (final (onChildRemoved child (final (insertChild index child s))))
    = children s).
  { rewrite onChildRemoved_children, insertChild_children; cbv zeta.
    rewrite (indexOf_absent _ _ Hout). rewrite decide_False by lia.
    by apply remove_insert. }
  split; [done |].
  intros p Hp Hnd Hsync.
  destruct (insertChild_installed s index child p Hp Hnd Hsync)
    as (s1 & Hrun1 & Hsync1 & Hp1 & Hnd1 & Ha1 & Hmsg1).
  destruct (onChildRemoved_installed s1 child p Hp1 Hnd1 Hsync1)
    as (s2 & Hrun2 & Hsync2 & _ & _ & _ & Hmsg2).
  rewrite Hrun1 in Hch; simpl in Hch. rewrite Hrun2 in Hch; simpl in Hch.
  assert (Hin1 : child ∈ children s1).
  { pose proof (insertChild_children index child s) as H1.
    rewrite Hrun1 in H1; simpl in H1.
    rewrite (indexOf_absent _ _ Hout) in H1.
    rewrite decide_False in H1 by lia.
    rewrite H1. apply insert_elem. by left. }
  exists s1, s2. split_and!; try done.
  - unfold synced in *. by rewrite Hsync2, Hch, Hsync.
  - rewrite Hmsg2, Hmsg1, Ha1.
    rewrite (bool_decide_eq_true_2 _ Hin1), andb_true_r.
    unfold insertMessages. rewrite decide_False by done.
    destruct (isAttached s); by rewrite <- ?app_assoc, ?app_nil_r.
Qed.

Lemma insert_then_remove_witness :
  children (final (onChildRemoved widgetC
                     (final (insertChild (int 1) widgetC twoChildren))))
    = children twoChildren
  ∧ ∃ s1 s2, insertChild (int 1) widgetC twoChildren = Ret tt s1
             ∧ onChildRemoved widgetC s1 = Ret tt s2
             ∧ childNodes s2 = childNodes twoChildren
             ∧ messages s2 = messages twoChildren ++
                 if isAttached twoChildren
                 then [(widgetC, MsgAfterAttach); (widgetC, MsgBeforeDetach)]
                 else [].
Proof.
  destruct (insert_then_remove twoChildren (int 1) widgetC) as [Hch Hrun].
  - compute_done.
  - split; [exact Hch |]. apply (Hrun panel).
    + vm_compute. reflexivity.
    + compute_done.
    + vm_compute. reflexivity.
Defined.

(** X12: inserting is idempotent: whatever the first call of
    [insertChild(index, child)] did on a layout with distinct children
    (moved the child, inserted it, nothing, or thrown from a hook), the
    same call made again on the state it left returns and changes
    nothing, no hook is entered and no message sent. *)
Theorem insertChild_twice s index child :
  NoDup (children s) →
  insertChild index child (final (insertChild index child s))
  = Ret tt (final (insertChild index child s)).
Proof.
  intros Hnd.
  set (s1 := final (insertChild index child s)).
  assert (Hlink : widgetParent s1 !! child = parent s1).
  { unfold s1. by rewrite insertChild_widgetParent, insertChild_parent. }
  rewrite <- (relink_same child (parent s1) s1 Hlink) at 2.
  pose proof (insertChild_children index child s) as Hch.
  cbv zeta in Hch. fold s1 in Hch.
  assert (Hrange : 0 ≤ clampIndex index (count s) ≤ count s).
  { unfold clampIndex, count. lia. }
  destruct (decide (child ∈ children s)) as [Hin | Hout].
  - destruct (indexOf_present _ _ Hin) as (k & Hk & Hlk & _).
    pose proof (lookup_lt_Some _ _ _ Hlk) as Hlt.
    rewrite Hk in Hch. rewrite decide_True in Hch by lia.
    destruct (decide (Z.of_nat k
        = moveTarget (clampIndex index (count s)) (count s))) as [Ht | Ht].
    + assert (Hc : count s1 = count s) by (unfold count; by rewrite Hch).
      apply insertChild_same_place; rewrite Hch, ?Hc, Hk; [lia | done].
    + set (t := moveTarget (clampIndex index (count s)) (count s)) in *.
      assert (Htr : 0 ≤ t < Z.of_nat (length (children s))).
      { unfold t, moveTarget, count in *. case_decide; lia. }
      assert (Hc : count s1 = count s).
      { unfold count. by rewrite Hch, move_length. }
      assert (Hat : children s1 !! Z.to_nat t = Some child).
      { rewrite Hch. apply move_lookup; [lia | done |].
        by rewrite Nat2Z.id. }
      assert (Hnd1 : NoDup (children s1)).
      { rewrite Hch. by apply move_NoDup. }
      apply insertChild_same_place;
        rewrite (indexOf_lookup _ _ _ Hnd1 Hat), ?Hc; fold t; lia.
  - rewrite (indexOf_absent _ _ Hout) in Hch.
    rewrite decide_False in Hch by lia.
    rewrite insert_clamped in Hch by done.
    set (j := clampIndex index (count s)) in *.
    assert (Hk : child ∉ take (Z.to_nat j) (children s)).
    { intros Hin. apply Hout. rewrite <- (take_drop (Z.to_nat j) (children s)).
      apply elem_of_app. by left. }
    assert (Hc : count s1 = count s + 1).
    { unfold count. rewrite Hch, length_app; simpl.
      rewrite length_take, length_drop. unfold count in Hrange. lia. }
    assert (Hi : Js.indexOf (children s1) child = j).
    { rewrite Hch, indexOf_app_fresh by done.
      rewrite length_take. unfold count in Hrange. lia. }
    apply insertChild_same_place; rewrite Hi, ?Hc; [lia |].
    unfold j, clampIndex, moveTarget in *. case_decide; lia.
Qed.

Lemma insertChild_twice_witness :
  insertChild (int 0) widgetB (final (insertChild (int 0) widgetB twoChildren))
  = Ret tt (final (insertChild (int 0) widgetB twoChildren)).
Proof.
  apply (insertChild_twice twoChildren (int 0) widgetB).
  compute_done.
Defined.

(** ** Where the hooks put the node *)

Lemma place_before_split node r (l : list Node) :
  r ∈ l →
  ∃ l1 l2, l = l1 ++ r :: l2 ∧ (r ∉ l1)
           ∧ Dom.place_before node r l = l1 ++ node :: r :: l2.
Proof.
  induction l as [| x l IH]; intros Hr; [by apply elem_of_nil in Hr |].
  simpl. destruct (decide (x = r)) as [-> | Hx].
  - exists [], l. split_and!; [done | apply not_elem_of_nil | done].
  - apply elem_of_cons in Hr as [-> | Hr]; [done |].
    destruct (IH Hr) as (l1 & l2 & -> & Hl1 & Heq).
    exists (x :: l1), l2. split_and!; [done | | by rewrite Heq].
    intros Hin. apply elem_of_cons in Hin as [-> | Hin]; done.
Qed.

Lemma without_other node x (l : list Node) :
  x ≠ node → x ∈ l → x ∈ Dom.without node l.
Proof. intros Hne Hx. unfold Dom.without. by apply list_elem_of_filter. Qed.

Lemma insertBefore_split nodes node r :
  r ≠ node → r ∈ nodes →
  ∃ l1 l2, Dom.without node nodes = l1 ++ r :: l2 ∧ (r ∉ l1)
           ∧ Dom.insertBefore nodes node (Some r)
             = Some (l1 ++ node :: r :: l2).
Proof.
  intros Hne Hr. unfold Dom.insertBefore.
  rewrite decide_True by done. rewrite decide_False by done.
  destruct (place_before_split node r (Dom.without node nodes))
    as (l1 & l2 & Hl & Hl1 & Hpl); [by apply without_other |].
  exists l1, l2. by rewrite Hpl.
Qed.

(** X13: where [attachChild(index, child)] and [moveChild(from, index,
    child)] put the child's node, on a layout with a container. When the
    sequence has no child at [index + 1] the node goes last; when the child
    there is another widget whose node is in the container, the node goes
    immediately before that node; in both cases the other nodes of the
    container keep their order. *)
Theorem hooks_node_placement s p index child fromIndex :
  parent s = Some p →
  (Js.get (children s) (int (index + 1)) = None →
     childNodes (final (attachChild index child s))
       = Dom.without (NodeOf child) (childNodes s) ++ [NodeOf child]
     ∧ childNodes (final (moveChild fromIndex index child s))
       = Dom.without (NodeOf child) (childNodes s) ++ [NodeOf child])
  ∧ (∀ r, Js.get (children s) (int (index + 1)) = Some r →
       r ≠ child → NodeOf r ∈ childNodes s →
       ∃ l1 l2,
         Dom.without (NodeOf child) (childNodes s) = l1 ++ NodeOf r :: l2
         ∧ (NodeOf r ∉ l1)
         ∧ childNodes (final (attachChild index child s))
           = l1 ++ NodeOf child :: NodeOf r :: l2
         ∧ childNodes (final (moveChild fromIndex index child s))
           = l1 ++ NodeOf child :: NodeOf r :: l2).
Proof.
  intros Hp. split.
  - intros Hget. rewrite attachChild_eq, moveChild_eq; cbv zeta.
    rewrite Hp, Hget. simpl.
    by destruct (isAttached s).
  - intros r Hget Hne Hr.
    destruct (insertBefore_split (childNodes s) (NodeOf child) (NodeOf r))
      as (l1 & l2 & Hw & Hl1 & Hins); [congruence | done |].
    exists l1, l2. split_and!; [done | done | |].
    + rewrite attachChild_eq; cbv zeta. rewrite Hp, Hget.
      cbn [fmap option_fmap option_map]. rewrite Hins.
      by destruct (isAttached s).
    + rewrite moveChild_eq; cbv zeta. rewrite Hp, Hget.
      cbn [fmap option_fmap option_map]. rewrite Hins.
      by destruct (isAttached s).
Qed.

Lemma hooks_node_placement_witness :
  ∃ l1 l2,
    Dom.without (NodeOf widgetC) (childNodes twoChildren)
      = l1 ++ NodeOf widgetB :: l2
    ∧ (NodeOf widgetB ∉ l1)
    ∧ childNodes (final (attachChild 0 widgetC twoChildren))
      = l1 ++ NodeOf widgetC :: NodeOf widgetB :: l2
    ∧ childNodes (final (moveChild 2 0 widgetC twoChildren))
      = l1 ++ NodeOf widgetC :: NodeOf widgetB :: l2.
Proof.
  destruct (hooks_node_placement twoChildren panel 0 widgetC 2) as [_ Href].
  - vm_compute. reflexivity.
  - apply (Href widgetB).
    + vm_compute. reflexivity.
    + compute_done.
    + compute_done.
Defined.

(** ** [dispose()] and the container *)

(** X14: from a state in which the children are distinct, [dispose()]
    returns having emptied the sequence, dropped the container and flagged
    the layout, and it does this without touching the container's node:
    the child nodes of the container stay as they are, no hook is entered
    and no message is sent to any child. Disposing once more changes
    nothing. *)
Theorem dispose_leaves_container s :
  NoDup (children s) →
  ∃ s', dispose s = Ret tt s'
        ∧ children s' = []
        ∧ parent s' = None
        ∧ layoutDisposed s' = true
        ∧ childNodes s' = childNodes s
        ∧ methods s' = methods s
        ∧ messages s' = messages s
        ∧ dispose s' = Ret tt s'.
Proof.
  intros Hnd.
  destruct (dispose_loop_spec (length (children s)) s Hnd)
    as (s1 & Hrun & Hch & _ & _ & _ & (Hn & Hm & Hg & _)); [done |].
  exists (with_layoutDisposed true (with_parent None s1)).
  split_and!; try done.
  - unfold dispose; munfold. by rewrite Hrun.
  - unfold dispose; munfold; fields. rewrite Hch. simpl; munfold; fields.
    by rewrite Hch.
Qed.

Lemma dispose_leaves_container_witness :
  ∃ s', dispose twoChildren = Ret tt s'
        ∧ children s' = []
        ∧ parent s' = None
        ∧ layoutDisposed s' = true
        ∧ childNodes s' = childNodes twoChildren
        ∧ methods s' = methods twoChildren
        ∧ messages s' = messages twoChildren
        ∧ dispose s' = Ret tt s'.
Proof.
  apply (dispose_leaves_container twoChildren).
  compute_done.
Defined.

(** ** When the operations throw *)

Lemma get_int_elem {A} (array : list A) (z : Z) (v : A) :
  Js.get array (int z) = Some v → v ∈ array.
Proof.
  rewrite get_int. case_decide; [| done].
  intros Hv. eapply list_elem_of_lookup_2; eauto.
Qed.

Lemma insertBefore_none nodes node (ref : option Widget) :
  Dom.insertBefore nodes node (NodeOf <$> ref) = None →
  ∃ r, ref = Some r ∧ NodeOf r ∉ nodes.
Proof.
  destruct ref as [r|]; simpl; [| done].
  case_decide; [by case_decide |]. intros _. by exists r.
Qed.

(** X15: the only way [insertChild] fails. If [insertChild(index, child)]
    throws, the exception is the NotFoundError of the DOM, the layout has a
    container, and some child of the sequence left behind has its node
    outside the container (the reference handed to [insertBefore]); the
    child nodes of the container are untouched. A new child has been sent
    nothing; a child that was being moved on a live container has been
    sent 'before-detach' and no 'after-attach'. *)
Theorem insertChild_failure s index child e s' :
  insertChild index child s = Throw e s' →
  e = NotFoundError
  ∧ is_Some (parent s)
  ∧ childNodes s' = childNodes s
  ∧ (∃ r, r ∈ children s' ∧ NodeOf r ∉ childNodes s)
  ∧ messages s' = messages s ++
      if isAttached s && bool_decide (child ∈ children s)
      then [(child, MsgBeforeDetach)] else [].
Proof.
  rewrite insertChild_eq; cbv zeta.
  destruct (decide (Js.indexOf (children s) child ≠ -1)) as [Hi | Hi].
  - assert (Hin : child ∈ children s).
    { destruct (decide (child ∈ children s)) as [| Hout]; [done |].
      by rewrite (indexOf_absent _ _ Hout) in Hi. }
    rewrite (bool_decide_eq_true_2 _ Hin), andb_true_r.
    case_decide; [done |].
    destruct (parent s) as [p|] eqn:Hp; [| done].
    rewrite moveChild_eq; cbv zeta. unfold relink; fields. rewrite Hp.
    destruct (Dom.insertBefore _ _ _) as [nodes|] eqn:Hd; [done |].
    intros [= <- <-].
    apply insertBefore_none in Hd as (r & Hget & Hr).
    apply get_int_elem in Hget.
    destruct (isAttached s) eqn:Ha; unfold told, entered; fields;
      rewrite ?app_nil_r; split_and!; eauto.
  - assert (Hout : child ∉ children s).
    { apply indexOf_minus_one.
      destruct (decide (Js.indexOf (children s) child = -1)); [done |].
      by destruct Hi. }
    rewrite (bool_decide_eq_false_2 _ Hout), andb_false_r, app_nil_r.
    destruct (parent s) as [p|] eqn:Hp; [| done].
    rewrite attachChild_eq; cbv zeta. unfold relink; fields. rewrite Hp.
    destruct (Dom.insertBefore _ _ _) as [nodes|] eqn:Hd; [done |].
    intros [= <- <-].
    apply insertBefore_none in Hd as (r & Hget & Hr).
    apply get_int_elem in Hget.
    unfold entered; fields. split_and!; eauto.
Qed.

Lemma insertChild_failure_witness :
  NotFoundError = NotFoundError
  ∧ is_Some (parent (with_parent (Some panel) threePending))
  ∧ childNodes (final (insertChild (int 0) widgetA
                         (with_parent (Some panel) threePending)))
    = childNodes (with_parent (Some panel) threePending)
  ∧ (∃ r, r ∈ children (final (insertChild (int 0) widgetA
                                 (with_parent (Some panel) threePending)))
          ∧ NodeOf r ∉ childNodes (with_parent (Some panel) threePending))
  ∧ messages (final (insertChild (int 0) widgetA
                       (with_parent (Some panel) threePending)))
    = messages (with_parent (Some panel) threePending) ++
      if isAttached (with_parent (Some panel) threePending)
         && bool_decide
              (widgetA ∈ children (with_parent (Some panel) threePending))
      then [(widgetA, MsgBeforeDetach)] else [].
Proof.
  apply (insertChild_failure (with_parent (Some panel) threePending)
           (int 0) widgetA NotFoundError
           (final (insertChild (int 0) widgetA
                     (with_parent (Some panel) threePending)))).
  vm_compute. reflexivity.
Defined.

(** X16: how the 'child-removed' handler fails. If it throws, the child
    was in the sequence and has been taken out of it all the same, while
    the child nodes of the container are untouched; the exception is a
    TypeError when the layout has no container ([this.parent] is null in
    [detachChild]), and otherwise the NotFoundError of the DOM, the
    child's node not being a child node of the container. *)
Theorem onChildRemoved_failure s child e s' :
  onChildRemoved child s = Throw e s' →
  (∃ i : nat, children s !! i = Some child
              ∧ Js.indexOf (children s) child = Z.of_nat i
              ∧ children s' = delete i (children s))
  ∧ childNodes s' = childNodes s
  ∧ (parent s = None ∧ e = TypeError ∧ messages s' = messages s
     ∨ is_Some (parent s) ∧ (NodeOf child ∉ childNodes s)
       ∧ e = NotFoundError
       ∧ messages s' = messages s ++
           if isAttached s then [(child, MsgBeforeDetach)] else []).
Proof.
  rewrite onChildRemoved_eq.
  destruct (decide (child ∈ children s)) as [Hin | Hout].
  - pose proof (remove_fst (children s) child) as Hfst.
    destruct (remove_present _ _ Hin) as (i & Hrm & Hi).
    rewrite Hrm in Hfst |- *; simpl in Hfst.
    rewrite decide_True by lia.
    rewrite detachChild_eq; cbv zeta; fields.
    destruct (parent s) as [p|] eqn:Hp.
    + unfold Dom.removeChild. case_decide as Hnode; [done |].
      intros [= <- <-].
      destruct (isAttached s) eqn:Ha; unfold told, entered; fields;
        rewrite ?app_nil_r; (split_and!; [by exists i | done |]);
        right; split_and!; eauto.
    + intros [= <- <-]. unfold entered; fields.
      split_and!; [by exists i | done |]. by left.
  - rewrite (remove_absent _ _ Hout). by rewrite decide_False by lia.
Qed.

Lemma onChildRemoved_failure_witness :
  (∃ i : nat, children threePending !! i = Some widgetC
              ∧ Js.indexOf (children threePending) widgetC = Z.of_nat i
              ∧ children (final (onChildRemoved widgetC threePending))
                = delete i (children threePending))
  ∧ childNodes (final (onChildRemoved widgetC threePending))
    = childNodes threePending
  ∧ (parent threePending = None ∧ TypeError = TypeError
     ∧ messages (final (onChildRemoved widgetC threePending))
       = messages threePending
     ∨ is_Some (parent threePending)
       ∧ (NodeOf widgetC ∉ childNodes threePending)
       ∧ TypeError = NotFoundError
       ∧ messages (final (onChildRemoved widgetC threePending))
         = messages threePending ++
           if isAttached threePending then [(widgetC, MsgBeforeDetach)]
           else []).
Proof.
  apply (onChildRemoved_failure threePending widgetC TypeError
           (final (onChildRemoved widgetC threePending))).
  vm_compute. reflexivity.
Defined.

(** ** The nodes of the container belong to the children *)

Lemma insertBefore_within nodes node ref nodes' x :
  Dom.insertBefore nodes node ref = Some nodes' →
  x ∈ nodes' → x = node ∨ x ∈ nodes.
Proof.
  unfold Dom.insertBefore. intros H Hx.
  destruct ref as [r|].
  - case_decide; [| done]. case_decide; simplify_eq; [by right |].
    apply place_before_elem in Hx as [-> | Hx]; [by left | right].
    by apply without_elem in Hx as [_ Hx].
  - simplify_eq. apply elem_of_app in Hx as [Hx | Hx].
    + right. by apply without_elem in Hx as [_ Hx].
    + left. by apply list_elem_of_singleton in Hx.
Qed.

Lemma attachChild_nodes index child s x :
  x ∈ childNodes (final (attachChild index child s)) →
  x = NodeOf child ∨ x ∈ childNodes s.
Proof.
  rewrite attachChild_eq; cbv zeta.
  destruct (parent s); [| by right].
  destruct (Dom.insertBefore _ _ _) eqn:Hd; [| by right].
  destruct (isAttached s); fields; by eapply insertBefore_within.
Qed.

Lemma moveChild_nodes fromIndex toIndex child s x :
  x ∈ childNodes (final (moveChild fromIndex toIndex child s)) →
  x = NodeOf child ∨ x ∈ childNodes s.
Proof.
  rewrite moveChild_eq; cbv zeta.
  destruct (parent s); [| by right].
  destruct (Dom.insertBefore _ _ _) eqn:Hd, (isAttached s); fields;
    try (by right); by eapply insertBefore_within.
Qed.

Lemma insertChild_nodes index child s x :
  x ∈ childNodes (final (insertChild index child s)) →
  x = NodeOf child ∨ x ∈ childNodes s.
Proof.
  rewrite insertChild_eq; cbv zeta.
  repeat case_decide; destruct (parent s); fields; try (by right).
  - intros Hx. by apply moveChild_nodes in Hx.
  - intros Hx. by apply attachChild_nodes in Hx.
Qed.

Lemma insertChild_owns index child s :
  ownsNodes s → ownsNodes (final (insertChild index child s)).
Proof.
  unfold ownsNodes. rewrite insertChild_parent. intros Hown Hp c Hc.
  apply insertChild_elem.
  apply insertChild_nodes in Hc as [[= ->] | Hc]; [by left | right].
  by apply Hown.
Qed.

Lemma delete_other (l : list Widget) (i : nat) v x :
  l !! i = Some v → x ≠ v → x ∈ l → x ∈ delete i l.
Proof.
  intros Hi Hne Hx. rewrite delete_take_drop.
  rewrite <- (take_drop_middle l i v Hi) in Hx.
  rewrite !elem_of_app, elem_of_cons in Hx. rewrite elem_of_app. tauto.
Qed.

Lemma onChildRemoved_owns child s :
  ownsNodes s → ownsNodes (final (onChildRemoved child s)).
Proof.
  unfold ownsNodes. rewrite onChildRemoved_parent. intros Hown Hp c Hc.
  destruct (decide (child ∈ children s)) as [Hin | Hout].
  - revert Hc. rewrite onChildRemoved_eq.
    destruct (remove_present _ _ Hin) as (i & -> & Hi).
    rewrite decide_True by lia.
    rewrite detachChild_eq; cbv zeta; fields.
    destruct Hp as [p Hp]. rewrite Hp.
    unfold Dom.removeChild. case_decide as Hnode.
    + destruct (isAttached s); unfold told, entered; fields;
        intros Hc; apply without_elem in Hc as [Hne Hc];
        (eapply delete_other; [done | congruence | by eauto]).
    + destruct (isAttached s); unfold told, entered; fields;
        intros Hc;
        (eapply delete_other; [done | | by eauto]);
        intros ->; done.
  - rewrite onChildRemoved_noop in Hc |- * by done. simpl in *. eauto.
Qed.

Lemma initialize_loop_nodes fuel : ∀ i s c,
  NodeOf c ∈ childNodes (final (initialize_loop fuel i s)) →
  NodeOf c ∈ childNodes s ∨ c ∈ children s.
Proof.
  induction fuel as [| fuel IH]; intros i s c; simpl; munfold.
  - case_decide; fields; by left.
  - case_decide; [| by left].
    destruct (Js.get (children s) (int i)) as [c0|] eqn:Hget; [| by left].
    apply get_int_elem in Hget.
    rewrite setParent_own.
    pose proof (attachChild_frame i c0 (relink c0 (parent s) s)) as [Hch _].
    pose proof (attachChild_nodes i c0 (relink c0 (parent s) s)) as Hnodes.
    destruct (attachChild i c0 _) as [[] s1 | e s1]; fields;
      simpl in Hch, Hnodes; intros Hc.
    + apply IH in Hc as [Hc | Hc].
      * apply Hnodes in Hc as [[= ->] | Hc]; [by right | by left].
      * right. by rewrite <- Hch.
    + apply Hnodes in Hc as [[= ->] | Hc]; [by right | by left].
Qed.

Lemma install_owns p live s :
  ownsNodes s → ownsNodes (final (install p live s)).
Proof.
  intros Hown. destruct (parent s) as [q|] eqn:Hq.
  { by rewrite (install_installed p live s q). }
  unfold ownsNodes. intros _ c. rewrite install_children.
  unfold install, initialize; munfold. rewrite Hq. fields.
  intros Hc. apply initialize_loop_nodes in Hc as [Hc | Hc]; [| done].
  fields. by apply elem_of_nil in Hc.
Qed.

Lemma dispose_owns s :
  NoDup (children s) → ownsNodes (final (dispose s)).
Proof.
  intros Hnd. destruct (dispose_returns s Hnd) as (s1 & -> & _).
  unfold ownsNodes; fields. by intros [? ?].
Qed.

Lemma perform_owns op s :
  NoDup (children s) → ownsNodes s → ownsNodes (final (perform op s)).
Proof.
  intros Hnd Hown. destruct op as [index child | child | child | | p live]; simpl.
  - by apply insertChild_owns.
  - rewrite addChild_eq. by apply insertChild_owns.
  - by apply onChildRemoved_owns.
  - by apply dispose_owns.
  - by apply install_owns.
Qed.

Lemma nodesOwned_ownsNodes s : nodesOwned s → ownsNodes s.
Proof. intros [Hown _] _. exact Hown. Qed.

Lemma no_nodes (l : list Node) : (∀ c, NodeOf c ∉ l) → l = [].
Proof.
  intros Hl. apply elem_of_nil_inv. intros [c]. apply Hl.
Qed.

Lemma insertChild_nodesOwned index child s :
  nodesOwned s → nodesOwned (final (insertChild index child s)).
Proof.
  intros [Hown Hbare]. split.
  - intros c Hc. apply insertChild_elem.
    apply insertChild_nodes in Hc as [[= ->] | Hc]; [by left | right].
    by apply Hown.
  - rewrite insertChild_parent. intros Hp.
    destruct (insertChild_parentless s index child Hp)
      as (s' & Hrun & _ & Hn & _).
    rewrite Hrun; simpl. rewrite Hn. by apply Hbare.
Qed.

Lemma onChildRemoved_nodes child s x :
  x ∈ childNodes (final (onChildRemoved child s)) → x ∈ childNodes s.
Proof.
  rewrite onChildRemoved_eq.
  destruct (arrays.remove _ _) as [i a]. case_decide; [| done].
  rewrite detachChild_eq; cbv zeta; fields.
  destruct (parent s); [| done].
  unfold Dom.removeChild. case_decide;
    destruct (isAttached s); unfold told, entered; fields; try done;
    intros Hx; by apply without_elem in Hx as [_ Hx].
Qed.

Lemma onChildRemoved_nodesOwned child s :
  nodesOwned s → nodesOwned (final (onChildRemoved child s)).
Proof.
  intros [Hown Hbare]. split.
  - destruct (parent s) as [p|] eqn:Hp.
    + intros c Hc.
      apply (onChildRemoved_owns child s); [by intros _ | | done].
      rewrite onChildRemoved_parent, Hp. by eexists.
    + intros c Hc. apply onChildRemoved_nodes in Hc.
      rewrite (Hbare eq_refl) in Hc. by apply elem_of_nil in Hc.
  - rewrite onChildRemoved_parent. intros Hp.
    apply no_nodes. intros c Hc. apply onChildRemoved_nodes in Hc.
    rewrite (Hbare Hp) in Hc. by apply elem_of_nil in Hc.
Qed.

Lemma initialize_loop_parent fuel : ∀ i s,
  parent (final (initialize_loop fuel i s)) = parent s.
Proof.
  induction fuel as [| fuel IH]; intros i s; simpl; munfold.
  - by case_decide.
  - case_decide; [| done].
    destruct (Js.get (children s) (int i)) as [c0|]; [| done].
    rewrite setParent_own.
    pose proof (attachChild_frame i c0 (relink c0 (parent s) s))
      as (_ & Hp & _).
    destruct (attachChild i c0 _) as [[] s1 | e s1]; fields;
      simpl in Hp; [by rewrite IH | done].
Qed.

Lemma install_nodesOwned p live s :
  nodesOwned s → nodesOwned (final (install p live s)).
Proof.
  intros Hown. destruct (parent s) as [q|] eqn:Hq.
  { by rewrite (install_installed p live s q). }
  split.
  - intros c. rewrite install_children.
    unfold install, initialize; munfold. rewrite Hq. fields.
    intros Hc. apply initialize_loop_nodes in Hc as [Hc | Hc]; [| done].
    fields. by apply elem_of_nil in Hc.
  - unfold install, initialize; munfold. rewrite Hq. fields.
    by rewrite initialize_loop_parent.
Qed.

Lemma perform_nodesOwned op s :
  disposing op = false → nodesOwned s → nodesOwned (final (perform op s)).
Proof.
  intros Hop Hown.
  destruct op as [index child | child | child | | p live]; simpl; [..| done |].
  - by apply insertChild_nodesOwned.
  - rewrite addChild_eq. by apply insertChild_nodesOwned.
  - by apply onChildRemoved_nodesOwned.
  - by apply install_nodesOwned.
Qed.

Lemma afterAll_owns ops : ∀ s,
  NoDup (children s) → ownsNodes s →
  NoDup (children (afterAll ops s)) ∧ ownsNodes (afterAll ops s).
Proof.
  induction ops as [| op ops IH]; intros s Hnd Hown; [done |].
  apply IH; [by apply perform_NoDup | by apply perform_owns].
Qed.

Lemma afterAll_nodesOwned ops : ∀ s,
  forallb (λ op, negb (disposing op)) ops = true →
  nodesOwned s → nodesOwned (afterAll ops s).
Proof.
  induction ops as [| op ops IH]; intros s Hops Hown; [done |].
  simpl in Hops. apply andb_prop in Hops as [Hop Hops].
  apply IH; [done |]. apply perform_nodesOwned; [| done].
  by destruct (disposing op).
Qed.

(** X17: the container never shows a foreign node. Take a state with
    distinct children in which every child node of the container is the
    node of a child of the sequence, and a layout without container has no
    child nodes (a new layout is one). After any run of operations
    without [dispose()] (inserting, appending, the removal notification,
    being installed), each starting where the previous one ended, also
    when some of them throw, every child node is again the node of a child
    of the sequence. A run with [dispose()] in it keeps this only
    for a layout that has a container at the end of the run: [dispose()]
    empties the sequence and drops the container but leaves the nodes
    where they are, so nothing is claimed for a layout it left without
    container. The children stay distinct in every run. *)
Theorem nodes_belong_to_children ops s :
  NoDup (children s) → nodesOwned s →
  NoDup (children (afterAll ops s))
  ∧ (is_Some (parent (afterAll ops s)) →
     ∀ c, NodeOf c ∈ childNodes (afterAll ops s) →
          c ∈ children (afterAll ops s))
  ∧ (forallb (λ op, negb (disposing op)) ops = true →
     ∀ c, NodeOf c ∈ childNodes (afterAll ops s) →
          c ∈ children (afterAll ops s)).
Proof.
  intros Hnd Hown.
  destruct (afterAll_owns ops s Hnd (nodesOwned_ownsNodes s Hown))
    as [Hnd' Hown'].
  split_and!; [done | exact Hown' |].
  intros Hops. by destruct (afterAll_nodesOwned ops s Hops Hown).
Qed.

(** The run of the witness goes through two throws (the installation with
    two pending children, the removal of a child whose node was never
    placed) and ends with the node of A in the container and C, A in the
    sequence. *)
Lemma nodes_belong_to_children_witness :
  childNodes (afterAll [OpAdd widgetB; OpAdd widgetC; OpInstall panel true;
                        OpAdd widgetA; OpChildRemoved widgetB] newLayout)
    = [NodeOf widgetA]
  ∧ children (afterAll [OpAdd widgetB; OpAdd widgetC; OpInstall panel true;
                        OpAdd widgetA; OpChildRemoved widgetB] newLayout)
    = [widgetC; widgetA]
  ∧ ∀ c, NodeOf c ∈ childNodes
           (afterAll [OpAdd widgetB; OpAdd widgetC; OpInstall panel true;
                      OpAdd widgetA; OpChildRemoved widgetB] newLayout) →
         c ∈ children
           (afterAll [OpAdd widgetB; OpAdd widgetC; OpInstall panel true;
                      OpAdd widgetA; OpChildRemoved widgetB] newLayout).
Proof.
  split; [vm_compute; reflexivity |].
  split; [vm_compute; reflexivity |].
  destruct (nodes_belong_to_children
              [OpAdd widgetB; OpAdd widgetC; OpInstall panel true;
               OpAdd widgetA; OpChildRemoved widgetB] newLayout)
    as (_ & _ & Hown).
  - constructor.
  - split; [| reflexivity]. intros c Hc. by apply elem_of_nil in Hc.
  - apply Hown. reflexivity.
Defined.
